(** * The permission service of crush (package [permission])

    A shallow embedding of [permissionService] and of its entry points
    [Request], [Grant], [GrantPersistent], [Deny], [SetMode], [GetMode],
    [SetSkipRequests], [SkipRequests] and [AutoApproveSession].

    [Request] blocks on a channel while other goroutines call the decision
    entry points, so the entry points are embedded as threads of atomic
    operations over the shared service state, interleaved by a schedule.
    One atomic operation is one access to the shared state: a read or a
    write under one of the fine-grained mutexes, a [Publish] on a broker, an
    operation of the [csync.Map], a channel send, the [select], or a
    lock/unlock of [requestMu]. *)

From stdpp Require Import base option list gmap strings.

Local Open Scope string_scope.

(** ** Data model *)

Inductive PermissionMode := ModeRegular | ModeYolo | ModePlan.

#[global] Instance PermissionMode_eq_dec : EqDecision PermissionMode.
Proof. solve_decision. Defined.

(** The values of Go's [error] that [Request] can return. *)
Inductive error :=
  | Errorf (msg : string)
  | ContextCanceled
  | ContextDeadlineExceeded.

#[global] Instance error_eq_dec : EqDecision error.
Proof. solve_decision. Defined.

(** [Params] has type [any] in the source; the service only copies it. *)
Record CreatePermissionRequest := {
  optsSessionID : string;
  optsToolCallID : string;
  optsToolName : string;
  optsDescription : string;
  optsAction : string;
  optsParams : string;
  optsPath : string
}.

Record PermissionNotification := {
  notifToolCallID : string;
  Granted : bool;
  Denied : bool
}.

Record PermissionRequest := {
  ID : string;
  SessionID : string;
  ToolCallID : string;
  ToolName : string;
  Description : string;
  Action : string;
  Params : string;
  Path : string
}.

#[global] Instance PermissionNotification_eq_dec : EqDecision PermissionNotification.
Proof. solve_decision. Defined.

#[global] Instance PermissionRequest_eq_dec : EqDecision PermissionRequest.
Proof. solve_decision. Defined.

(** A channel [chan bool] of capacity 1 is a reference into the heap of
    channels; its buffer is empty ([None]) or holds one value. *)
Definition chan := nat.

(** The struct [permissionService].  The two brokers are the streams of
    the events published so far; the fine-grained mutexes guard single
    reads and writes and are therefore not part of the state; [requestMu]
    records the thread that holds it. *)
Record permissionService := {
  Broker : list PermissionRequest;
  notificationBroker : list PermissionNotification;
  workingDir : string;
  sessionPermissions : list PermissionRequest;
  pendingRequests : gmap string chan;
  autoApproveSessions : gmap string bool;
  mode : PermissionMode;
  allowedTools : list string;
  requestMu : option nat;
  activeRequest : option PermissionRequest
}.

Definition set_Broker (v : list PermissionRequest) (s : permissionService) :=
  {| Broker := v; notificationBroker := notificationBroker s;
     workingDir := workingDir s; sessionPermissions := sessionPermissions s;
     pendingRequests := pendingRequests s;
     autoApproveSessions := autoApproveSessions s; mode := mode s;
     allowedTools := allowedTools s; requestMu := requestMu s;
     activeRequest := activeRequest s |}.

Definition set_notificationBroker (v : list PermissionNotification) (s : permissionService) :=
  {| Broker := Broker s; notificationBroker := v;
     workingDir := workingDir s; sessionPermissions := sessionPermissions s;
     pendingRequests := pendingRequests s;
     autoApproveSessions := autoApproveSessions s; mode := mode s;
     allowedTools := allowedTools s; requestMu := requestMu s;
     activeRequest := activeRequest s |}.

Definition set_sessionPermissions (v : list PermissionRequest) (s : permissionService) :=
  {| Broker := Broker s; notificationBroker := notificationBroker s;
     workingDir := workingDir s; sessionPermissions := v;
     pendingRequests := pendingRequests s;
     autoApproveSessions := autoApproveSessions s; mode := mode s;
     allowedTools := allowedTools s; requestMu := requestMu s;
     activeRequest := activeRequest s |}.

Definition set_pendingRequests (v : gmap string chan) (s : permissionService) :=
  {| Broker := Broker s; notificationBroker := notificationBroker s;
     workingDir := workingDir s; sessionPermissions := sessionPermissions s;
     pendingRequests := v;
     autoApproveSessions := autoApproveSessions s; mode := mode s;
     allowedTools := allowedTools s; requestMu := requestMu s;
     activeRequest := activeRequest s |}.

Definition set_autoApproveSessions (v : gmap string bool) (s : permissionService) :=
  {| Broker := Broker s; notificationBroker := notificationBroker s;
     workingDir := workingDir s; sessionPermissions := sessionPermissions s;
     pendingRequests := pendingRequests s;
     autoApproveSessions := v; mode := mode s;
     allowedTools := allowedTools s; requestMu := requestMu s;
     activeRequest := activeRequest s |}.

Definition set_mode (v : PermissionMode) (s : permissionService) :=
  {| Broker := Broker s; notificationBroker := notificationBroker s;
     workingDir := workingDir s; sessionPermissions := sessionPermissions s;
     pendingRequests := pendingRequests s;
     autoApproveSessions := autoApproveSessions s; mode := v;
     allowedTools := allowedTools s; requestMu := requestMu s;
     activeRequest := activeRequest s |}.

Definition set_requestMu (v : option nat) (s : permissionService) :=
  {| Broker := Broker s; notificationBroker := notificationBroker s;
     workingDir := workingDir s; sessionPermissions := sessionPermissions s;
     pendingRequests := pendingRequests s;
     autoApproveSessions := autoApproveSessions s; mode := mode s;
     allowedTools := allowedTools s; requestMu := v;
     activeRequest := activeRequest s |}.

Definition set_activeRequest (v : option PermissionRequest) (s : permissionService) :=
  {| Broker := Broker s; notificationBroker := notificationBroker s;
     workingDir := workingDir s; sessionPermissions := sessionPermissions s;
     pendingRequests := pendingRequests s;
     autoApproveSessions := autoApproveSessions s; mode := mode s;
     allowedTools := allowedTools s; requestMu := requestMu s;
     activeRequest := v |}.

(** ** Helpers of the package and of the libraries it calls *)

(** [slices.Contains]. *)
Fixpoint slices_Contains (s : list string) (v : string) : bool :=
  match s with
  | [] => false
  | x :: s' => if String.eqb x v then true else slices_Contains s' v
  end.

Definition isWriteOperation (action : string) : bool :=
  let writeActions := ["write"; "execute"] in
  slices_Contains writeActions action.

Definition isReadOnlyTool (toolName : string) : bool :=
  let readOnlyTools := ["mcp_sequential-thinking_sequentialthinking"] in
  slices_Contains readOnlyTools toolName.

(** [Publish] on a broker fans the event out without blocking; the stream
    is the sequence of published events. *)
Definition Publish {A} (stream : list A) (payload : A) : list A :=
  stream ++ [payload].

(** What the service consumes from outside: the probe [os.Stat] ([None]
    when it returns an error, otherwise [Some (IsDir ())]) and
    [filepath.Dir]. *)
Record Env := {
  os_Stat : string -> option bool;
  filepath_Dir : string -> string
}.

(** Lines 195-207 of [Request]: the directory stored in the request. *)
Definition resolveDir (env : Env) (workingDir : string) (path : string) : string :=
  let dir :=
    match os_Stat env path with
    | Some isDir => if isDir then path else filepath_Dir env path
    | None => path
    end in
  if String.eqb dir "." then workingDir else dir.

(** The literal built at lines 208-217. *)
Definition newPermission (id dir : string) (opts : CreatePermissionRequest)
    : PermissionRequest :=
  {| ID := id; Path := dir; SessionID := optsSessionID opts;
     ToolCallID := optsToolCallID opts; ToolName := optsToolName opts;
     Description := optsDescription opts; Action := optsAction opts;
     Params := optsParams opts |}.

(** The condition of the loop over [sessionPermissions] (line 221). *)
Definition samePermission (p permission : PermissionRequest) : bool :=
  String.eqb (ToolName p) (ToolName permission)
  && String.eqb (Action p) (Action permission)
  && String.eqb (SessionID p) (SessionID permission)
  && String.eqb (Path p) (Path permission).

(** ** The sequential entry points *)

Definition SetMode (m : PermissionMode) (s : permissionService) : permissionService :=
  set_mode m s.

Definition GetMode (s : permissionService) : PermissionMode := mode s.

Definition SetSkipRequests (skip : bool) (s : permissionService) : permissionService :=
  if skip then SetMode ModeYolo s else SetMode ModeRegular s.

Definition SkipRequests (s : permissionService) : bool :=
  bool_decide (GetMode s = ModeYolo).

Definition AutoApproveSession (sessionID : string) (s : permissionService)
    : permissionService :=
  set_autoApproveSessions (<[sessionID := true]> (autoApproveSessions s)) s.

Definition NewPermissionService (workingDir : string) (skip : bool)
    (allowedTools : list string) : permissionService :=
  {| Broker := []; notificationBroker := [];
     workingDir := workingDir; sessionPermissions := [];
     pendingRequests := ∅; autoApproveSessions := ∅;
     mode := if skip then ModeYolo else ModeRegular;
     allowedTools := allowedTools; requestMu := None;
     activeRequest := None |}.

(** ** Threads *)

(** What [Request] returns: [(bool, error)], [None] for a [nil] error. *)
Definition result : Type := bool * option error.

(** The program points of [Request], one per atomic operation; a point
    carries the local variables that are live at it. *)
Inductive request_pc :=
  | RStart                                   (* l.151 read of [s.mode] *)
  | RNotify                                  (* l.171 requested notification *)
  | RLock                                    (* l.174 [requestMu.Lock] *)
  | RAllow                                   (* l.179 allowlist *)
  | RAuto                                    (* l.184 auto-approve flag *)
  | RAutoNotify                              (* l.188 granted notification *)
  | RStat                                    (* l.195-217 stat, uuid, literal *)
  | RCache (permission : PermissionRequest)  (* l.219-230 loop over the cache *)
  | RCacheNotify                             (* l.223 granted notification *)
  | RSetActive (permission : PermissionRequest)      (* l.233 *)
  | RSet (permission : PermissionRequest)            (* l.236-238 *)
  | RPublish (permission : PermissionRequest) (respCh : chan)  (* l.241 *)
  | RWait (permission : PermissionRequest) (respCh : chan)     (* l.243 select *)
  | RDel (permission : PermissionRequest) (r : result)  (* deferred [Del] *)
  | RUnlock (r : result)                     (* deferred [requestMu.Unlock] *)
  | RDone (r : result).                      (* returned *)

Inductive decision := DGrant | DGrantPersistent | DDeny.

(** The program points of [Grant], [GrantPersistent] and [Deny]. *)
Inductive decision_pc :=
  | DNotify                 (* publish the notification *)
  | DGet                    (* [pendingRequests.Get] *)
  | DSend (respCh : chan)   (* [respCh <- v] *)
  | DAppend                 (* [GrantPersistent] only: append to the cache *)
  | DClear                  (* clear [activeRequest] if it matches *)
  | DDone.                  (* returned *)

(** A thread is a call in progress.  [ctx] is [ctx.Err ()]: [None] until
    the caller's context ends. *)
Inductive thread :=
  | TRequest (opts : CreatePermissionRequest) (ctx : option error) (pc : request_pc)
  | TDecision (d : decision) (permission : PermissionRequest) (pc : decision_pc).

#[global] Instance decision_eq_dec : EqDecision decision.
Proof. solve_decision. Defined.

(** The shared memory: the service, the heap of channels, and the IDs
    [uuid.New] has returned so far. *)
Record memory := {
  svc : permissionService;
  chans : list (option bool);
  issued : list string
}.

Definition set_svc (v : permissionService) (m : memory) : memory :=
  {| svc := v; chans := chans m; issued := issued m |}.

Definition set_chans (v : list (option bool)) (m : memory) : memory :=
  {| svc := svc m; chans := v; issued := issued m |}.

Definition set_issued (v : list string) (m : memory) : memory :=
  {| svc := svc m; chans := chans m; issued := v |}.

(** The process: the shared memory and the calls in progress, a thread
    being named by its index in the pool. *)
Record world := {
  mem :> memory;
  threads : list thread
}.

(** What a step takes from outside the model: the value [uuid.New]
    returns, and the branch a [select] with both cases ready takes.
    [uuid.New] never returns an ID twice: an operation that would take
    an ID already issued is not an operation of the model. *)
Record oracle := {
  uuid_New : string;
  select_recv : bool
}.

Definition planModeError : error :=
  Errorf "write operations are not allowed in plan mode".

(** The value a decision sends on the channel. *)
Definition decisionValue (d : decision) : bool :=
  match d with DDeny => false | _ => true end.

Definition decisionNotification (d : decision) (permission : PermissionRequest)
    : PermissionNotification :=
  match d with
  | DDeny => {| notifToolCallID := ToolCallID permission; Granted := false; Denied := true |}
  | _ => {| notifToolCallID := ToolCallID permission; Granted := true; Denied := false |}
  end.

(** The point after the send: [GrantPersistent] appends to the cache. *)
Definition afterSend (d : decision) : decision_pc :=
  match d with DGrantPersistent => DAppend | _ => DClear end.

Definition notify (n : PermissionNotification) (w : memory) : memory :=
  set_svc (set_notificationBroker (Publish (notificationBroker (svc w)) n) (svc w)) w.

Definition grantedNotification (opts : CreatePermissionRequest) : PermissionNotification :=
  {| notifToolCallID := optsToolCallID opts; Granted := true; Denied := false |}.

Definition requestedNotification (opts : CreatePermissionRequest) : PermissionNotification :=
  {| notifToolCallID := optsToolCallID opts; Granted := false; Denied := false |}.

(** One atomic operation of [Request] run by thread [t]: the next program
    point and the new shared memory, or [None] when the operation blocks
    (or the call has returned). *)
Definition Request_step (env : Env) (t : nat) (o : oracle)
    (opts : CreatePermissionRequest) (ctx : option error) (pc : request_pc)
    (w : memory) : option (request_pc * memory) :=
  let s := svc w in
  match pc with
  | RStart =>
      match mode s with
      | ModePlan =>
          if isWriteOperation (optsAction opts) && negb (isReadOnlyTool (optsToolName opts))
          then Some (RDone (false, Some planModeError), w)
          else Some (RNotify, w)
      | ModeYolo => Some (RDone (true, None), w)
      | ModeRegular => Some (RNotify, w)
      end
  | RNotify => Some (RLock, notify (requestedNotification opts) w)
  | RLock =>
      match requestMu s with
      | None => Some (RAllow, set_svc (set_requestMu (Some t) s) w)
      | Some _ => None
      end
  | RAllow =>
      let commandKey := optsToolName opts ++ ":" ++ optsAction opts in
      if slices_Contains (allowedTools s) commandKey
         || slices_Contains (allowedTools s) (optsToolName opts)
      then Some (RUnlock (true, None), w)
      else Some (RAuto, w)
  | RAuto =>
      let autoApprove := default false (autoApproveSessions s !! optsSessionID opts) in
      if autoApprove then Some (RAutoNotify, w) else Some (RStat, w)
  | RAutoNotify => Some (RUnlock (true, None), notify (grantedNotification opts) w)
  | RStat =>
      let dir := resolveDir env (workingDir s) (optsPath opts) in
      let id := uuid_New o in
      if bool_decide (id ∈ issued w) then None
      else Some (RCache (newPermission id dir opts), set_issued (id :: issued w) w)
  | RCache permission =>
      if existsb (fun p => samePermission p permission) (sessionPermissions s)
      then Some (RCacheNotify, w)
      else Some (RSetActive permission, w)
  | RCacheNotify => Some (RUnlock (true, None), notify (grantedNotification opts) w)
  | RSetActive permission =>
      Some (RSet permission, set_svc (set_activeRequest (Some permission) s) w)
  | RSet permission =>
      let respCh := length (chans w) in
      Some (RPublish permission respCh,
            set_chans (chans w ++ [None])
              (set_svc (set_pendingRequests
                          (<[ID permission := respCh]> (pendingRequests s)) s) w))
  | RPublish permission respCh =>
      Some (RWait permission respCh,
            set_svc (set_Broker (Publish (Broker s) permission) s) w)
  | RWait permission respCh =>
      let received granted :=
        Some (RDel permission (granted, None), set_chans (<[respCh := None]> (chans w)) w) in
      let cancelled e := Some (RDel permission (false, Some e), w) in
      match ctx, chans w !! respCh with
      | Some e, Some (Some granted) =>
          if select_recv o then received granted else cancelled e
      | Some e, _ => cancelled e
      | None, Some (Some granted) => received granted
      | None, _ => None
      end
  | RDel permission r =>
      Some (RUnlock r,
            set_svc (set_pendingRequests (delete (ID permission) (pendingRequests s)) s) w)
  | RUnlock r => Some (RDone r, set_svc (set_requestMu None s) w)
  | RDone _ => None
  end.

(** One atomic operation of [Grant], [GrantPersistent] or [Deny]. *)
Definition Decision_step (d : decision) (permission : PermissionRequest)
    (pc : decision_pc) (w : memory) : option (decision_pc * memory) :=
  let s := svc w in
  match pc with
  | DNotify => Some (DGet, notify (decisionNotification d permission) w)
  | DGet =>
      match pendingRequests s !! ID permission with
      | Some respCh => Some (DSend respCh, w)
      | None => Some (afterSend d, w)
      end
  | DSend respCh =>
      match chans w !! respCh with
      | Some None =>
          Some (afterSend d, set_chans (<[respCh := Some (decisionValue d)]> (chans w)) w)
      | _ => None
      end
  | DAppend =>
      Some (DClear,
            set_svc (set_sessionPermissions (sessionPermissions s ++ [permission]) s) w)
  | DClear =>
      match activeRequest s with
      | Some a =>
          if String.eqb (ID a) (ID permission)
          then Some (DDone, set_svc (set_activeRequest None s) w)
          else Some (DDone, w)
      | None => Some (DDone, w)
      end
  | DDone => None
  end.

Definition thread_step (env : Env) (t : nat) (o : oracle) (th : thread) (w : memory)
    : option (thread * memory) :=
  match th with
  | TRequest opts ctx pc =>
      match Request_step env t o opts ctx pc w with
      | Some (pc', w') => Some (TRequest opts ctx pc', w')
      | None => None
      end
  | TDecision d permission pc =>
      match Decision_step d permission pc w with
      | Some (pc', w') => Some (TDecision d permission pc', w')
      | None => None
      end
  end.

(** ** Schedules *)

Inductive call :=
  | CallRequest (opts : CreatePermissionRequest)
  | CallGrant (permission : PermissionRequest)
  | CallGrantPersistent (permission : PermissionRequest)
  | CallDeny (permission : PermissionRequest).

Definition spawn (c : call) : thread :=
  match c with
  | CallRequest opts => TRequest opts None RStart
  | CallGrant p => TDecision DGrant p DNotify
  | CallGrantPersistent p => TDecision DGrantPersistent p DNotify
  | CallDeny p => TDecision DDeny p DNotify
  end.

(** What can happen next: a goroutine enters an entry point, a thread runs
    its next atomic operation, the context of a [Request] ends, or one of
    the controls, each a single critical section, is called. *)
Inductive action :=
  | Call (c : call)
  | Run (t : nat) (o : oracle)
  | CtxDone (t : nat) (e : error)
  | ASetMode (m : PermissionMode)
  | ASetSkipRequests (skip : bool)
  | AAutoApproveSession (sessionID : string).

Definition step (env : Env) (a : action) (w : world) : option world :=
  match a with
  | Call c => Some {| mem := w; threads := threads w ++ [spawn c] |}
  | Run t o =>
      match threads w !! t with
      | Some th =>
          match thread_step env t o th w with
          | Some (th', m') => Some {| mem := m'; threads := <[t := th']> (threads w) |}
          | None => None
          end
      | None => None
      end
  | CtxDone t e =>
      match threads w !! t with
      | Some (TRequest opts None pc) =>
          Some {| mem := w; threads := <[t := TRequest opts (Some e) pc]> (threads w) |}
      | _ => None
      end
  | ASetMode m => Some {| mem := set_svc (SetMode m (svc w)) w; threads := threads w |}
  | ASetSkipRequests skip =>
      Some {| mem := set_svc (SetSkipRequests skip (svc w)) w; threads := threads w |}
  | AAutoApproveSession sid =>
      Some {| mem := set_svc (AutoApproveSession sid (svc w)) w; threads := threads w |}
  end.

Fixpoint run (env : Env) (sched : list action) (w : world) : option world :=
  match sched with
  | [] => Some w
  | a :: sched' =>
      match step env a w with
      | Some w' => run env sched' w'
      | None => None
      end
  end.

(** Thread [t] alone runs [n] atomic operations. *)
Definition solo (t : nat) (o : oracle) (n : nat) : list action :=
  replicate n (Run t o).

(** The same [n] operations, seen from the thread. *)
Fixpoint thread_steps (env : Env) (t : nat) (o : oracle) (n : nat)
    (th : thread) (m : memory) : option (thread * memory) :=
  match n with
  | 0 => Some (th, m)
  | S n' =>
      match thread_step env t o th m with
      | Some (th', m') => thread_steps env t o n' th' m'
      | None => None
      end
  end.

(** The process right after [NewPermissionService]: no call yet. *)
Definition boot (workingDir : string) (skip : bool) (allowedTools : list string) : world :=
  {| mem := {| svc := NewPermissionService workingDir skip allowedTools;
               chans := []; issued := [] |};
     threads := [] |}.

Definition reachable (env : Env) (w : world) : Prop :=
  exists workingDir skip allowedTools sched,
    run env sched (boot workingDir skip allowedTools) = Some w.

(** ** Predicates on threads and invariants of the reachable worlds *)

(** The program points of [Request] between [requestMu.Lock] and the
    deferred [requestMu.Unlock]: the fast-path checks, the publication of
    the prompt, the wait and the deferred [Del]. *)
Definition locked_pc (pc : request_pc) : bool :=
  match pc with
  | RStart | RNotify | RLock | RDone _ => false
  | _ => true
  end.

Definition holdsLock (th : thread) : bool :=
  match th with
  | TRequest _ _ pc => locked_pc pc
  | TDecision _ _ _ => false
  end.

(** The thread has published its prompt and blocks in the [select]:
    neither a decision nor the end of its context has been taken. *)
Definition awaitsDecision (th : thread) : bool :=
  match th with
  | TRequest _ _ (RWait _ _) => true
  | _ => false
  end.

(** The [PermissionRequest] a call of [Request] has synthesized and still
    uses. *)
Definition carried (th : thread) : option PermissionRequest :=
  match th with
  | TRequest _ _ pc =>
      match pc with
      | RCache p | RSetActive p | RSet p | RPublish p _ | RWait p _ | RDel p _ => Some p
      | _ => None
      end
  | TDecision _ _ _ => None
  end.

(** The slot a call of [Request] has registered and not yet found
    resolved. *)
Definition registeredSlot (th : thread) : option (PermissionRequest * chan) :=
  match th with
  | TRequest _ _ (RPublish p ch) | TRequest _ _ (RWait p ch) => Some (p, ch)
  | _ => None
  end.

(** Whoever is between lock and unlock is the holder of [requestMu]. *)
Definition mutex_inv (w : world) : Prop :=
  forall t th, threads w !! t = Some th -> holdsLock th = true ->
    requestMu (svc w) = Some t.

(** A registered slot is in the Pending Request Table. *)
Definition pending_inv (w : world) : Prop :=
  forall t th p ch, threads w !! t = Some th -> registeredSlot th = Some (p, ch) ->
    pendingRequests (svc w) !! ID p = Some ch.

(** The requests in use have issued, pairwise distinct IDs. *)
Definition ids_inv (w : world) : Prop :=
  (forall t th p, threads w !! t = Some th -> carried th = Some p -> ID p ∈ issued w) /\
  (forall t1 t2 th1 th2 p1 p2,
     threads w !! t1 = Some th1 -> threads w !! t2 = Some th2 ->
     carried th1 = Some p1 -> carried th2 = Some p2 -> ID p1 = ID p2 -> t1 = t2).

(** A [GrantPersistent] that is past its append has its record in the
    cache. *)
Definition cached_inv (w : world) : Prop :=
  forall t p pc, threads w !! t = Some (TDecision DGrantPersistent p pc) ->
    pc = DClear \/ pc = DDone -> p ∈ sessionPermissions (svc w).

Definition service_inv (w : world) : Prop :=
  mutex_inv w /\ pending_inv w /\ ids_inv w /\ cached_inv w.

(** The ID [id] is retired: it was issued, no request in use has it and
    the Pending Request Table has no slot for it. *)
Definition retired (id : string) (w : world) : Prop :=
  id ∈ issued w /\
  (forall t th q, threads w !! t = Some th -> carried th = Some q -> ID q <> id) /\
  pendingRequests (svc w) !! id = None.

(** The Active Request after a decision call on [permission]. *)
Definition clearActive (permission : PermissionRequest) (a : option PermissionRequest)
    : option PermissionRequest :=
  match a with
  | Some r => if String.eqb (ID r) (ID permission) then None else Some r
  | None => None
  end.

(** No fast path applies to a request that resolves to [permission]. *)
Definition allowlisted (s : permissionService) (opts : CreatePermissionRequest) : bool :=
  slices_Contains (allowedTools s) (optsToolName opts ++ ":" ++ optsAction opts)
  || slices_Contains (allowedTools s) (optsToolName opts).

Definition autoApproved (s : permissionService) (opts : CreatePermissionRequest) : bool :=
  default false (autoApproveSessions s !! optsSessionID opts).



(** ** Further invariants of the reachable worlds *)

(** The call owns the slot of the ID [id]: it has registered it and not
    yet run its deferred [Del]. *)
Definition ownsSlot (id : string) (th : thread) : Prop :=
  match th with
  | TRequest _ _ (RPublish p _) | TRequest _ _ (RWait p _) | TRequest _ _ (RDel p _) =>
      ID p = id
  | _ => False
  end.

(** Every slot of the Pending Request Table has an owner. *)
Definition owner_inv (w : world) : Prop :=
  forall id ch, pendingRequests (svc w) !! id = Some ch ->
    exists t th, threads w !! t = Some th /\ ownsSlot id th.

(** The holder of [requestMu] is a call between lock and unlock. *)
Definition holder_inv (w : world) : Prop :=
  forall t, requestMu (svc w) = Some t ->
    exists th, threads w !! t = Some th /\ holdsLock th = true.

(** What the cache holds was appended by a [GrantPersistent], the only
    decision that comes to the append. *)
Definition origin_inv (w : world) : Prop :=
  (forall p, p ∈ sessionPermissions (svc w) ->
     exists g pc, threads w !! g = Some (TDecision DGrantPersistent p pc) /\
                  (pc = DClear \/ pc = DDone)) /\
  (forall t d p, threads w !! t = Some (TDecision d p DAppend) -> d = DGrantPersistent).

(** The request a call has synthesized and not yet published. *)
Definition unpublished (th : thread) : option PermissionRequest :=
  match th with
  | TRequest _ _ pc =>
      match pc with
      | RCache p | RSetActive p | RSet p | RPublish p _ => Some p
      | _ => None
      end
  | TDecision _ _ _ => None
  end.

(** The prompts on the request stream have issued, pairwise distinct IDs,
    which no request still to be published has. *)
Definition published_inv (w : world) : Prop :=
  NoDup (ID <$> Broker (svc w)) /\
  (forall id, id ∈ ID <$> Broker (svc w) -> id ∈ issued w) /\
  (forall t th p, threads w !! t = Some th -> unpublished th = Some p ->
     ID p ∉ ID <$> Broker (svc w)).

(** The number of operations of a decision call that finds its slot. *)
Definition decisionSteps (d : decision) : nat :=
  match d with DGrantPersistent => 5 | _ => 4 end.

(** The world with another mode. *)
Definition withMode (m : PermissionMode) (w : world) : world :=
  {| mem := set_svc (SetMode m (svc w)) w; threads := threads w |}.

(** The call is past the read of the mode. *)
Definition pastGate (th : thread) : bool :=
  match th with
  | TRequest _ _ RStart => false
  | _ => true
  end.

(** What the mode switch of [Request] lets through in Plan mode. *)
Definition planAllows (opts : CreatePermissionRequest) : Prop :=
  (optsAction opts <> "write" /\ optsAction opts <> "execute") \/
  optsToolName opts = "mcp_sequential-thinking_sequentialthinking".

(** ** A concrete process, for the examples *)

(** A file system with the directory [/repo], the file [/repo/main.go]
    and, relative to the current directory, the file [main.go];
    [filepath.Dir] is given on the paths the examples use. *)
Definition exampleEnv : Env :=
  {| os_Stat := fun path =>
       if String.eqb path "/repo" then Some true
       else if String.eqb path "/repo/main.go" then Some false
       else if String.eqb path "main.go" then Some false
       else None;
     filepath_Dir := fun path =>
       if String.eqb path "/repo/main.go" then "/repo"
       else if String.eqb path "/repo" then "/"
       else if String.eqb path "docs/a.txt" then "docs"
       else "." |}.

Definition firstID : oracle := {| uuid_New := "id-1"; select_recv := true |}.
Definition secondID : oracle := {| uuid_New := "id-2"; select_recv := true |}.

Definition bashRequest (path : string) : CreatePermissionRequest :=
  {| optsSessionID := "s1"; optsToolCallID := "tc1"; optsToolName := "bash";
     optsDescription := "run a command"; optsAction := "execute";
     optsParams := "ls"; optsPath := path |}.

Definition bashPermission : PermissionRequest :=
  newPermission "id-1" "/repo" (bashRequest "/repo").

(** A request for [bash] in [/repo] runs up to its [select] (ten
    operations). *)
Definition promptShown : list action :=
  (Call (CallRequest (bashRequest "/repo")) :: solo 0 firstID 10)%list.

(** The approver answers with [GrantPersistent], which runs up to and
    including its send; then the request runs to its return. *)
Definition grantedBeforeCached : list action :=
  (promptShown ++ Call (CallGrantPersistent bashPermission) :: solo 1 firstID 3
     ++ solo 0 firstID 3)%list.

(** The same, and [GrantPersistent] then runs to its return. *)
Definition grantedAndCached : list action :=
  (grantedBeforeCached ++ solo 1 firstID 2)%list.

(** The context of the request ends while it waits; then the request
    runs to its return. *)
Definition cancelledWaiting : list action :=
  (promptShown ++ [CtxDone 0 ContextCanceled])%list.

Definition promptCancelled : list action :=
  (cancelledWaiting ++ solo 0 firstID 3)%list.

(** After the persistent grant two more requests arrive, one for a file
    in [/repo] and one for a path elsewhere. *)
Definition askedAgain : list action :=
  (grantedAndCached ++ [Call (CallRequest (bashRequest "/repo/main.go"));
                        Call (CallRequest (bashRequest "docs/a.txt"))])%list.

(** The world a schedule leads to from a fresh process in [/repo] with
    the given allowlist. *)
Definition after (allowedTools : list string) (sched : list action) : world :=
  let w0 := boot "/repo" false allowedTools in
  default w0 (run exampleEnv sched w0).

(** Plan mode, with every fast path open for the request that thread 1
    is about to make: [bash] is on the allowlist, the session is flagged
    auto-approve and the cache holds a matching record. *)
Definition planModeSchedule : list action :=
  (Call (CallGrantPersistent bashPermission) :: solo 0 firstID 4
     ++ [AAutoApproveSession "s1"; ASetMode ModePlan;
         Call (CallRequest (bashRequest "/repo"))])%list.

Definition yoloModeSchedule : list action :=
  [ASetSkipRequests true; Call (CallRequest (bashRequest "/repo"))].

(** A second request arrives while the first one waits, and runs up to
    [requestMu.Lock]. *)
Definition secondQueued : list action :=
  (promptShown ++ Call (CallRequest (bashRequest "/repo/main.go"))
     :: solo 1 secondID 2)%list.

(** After the cancellation the approver still answers, with
    [GrantPersistent] on the ID that has no slot any more. *)
Definition lateDecision : list action :=
  (promptCancelled ++ [Call (CallGrantPersistent bashPermission)])%list.

(** [bash] is on the allowlist and a request for it arrives. *)
Definition allowlistedCall : list action :=
  [Call (CallRequest (bashRequest "/repo"))].

(** A request runs up to the operation that synthesizes its
    [PermissionRequest] (five operations), and up to its [select]. *)
Definition beforeStat (path : string) : list action :=
  (Call (CallRequest (bashRequest path)) :: solo 0 firstID 5)%list.

Definition promptShownFor (path : string) : list action :=
  (Call (CallRequest (bashRequest path)) :: solo 0 firstID 10)%list.

(** More schedules for the examples. *)

(** The approver denies the prompt for [bash]. *)
Definition denyCalled : list action :=
  (promptShown ++ [Call (CallDeny bashPermission)])%list.

(** The first request is cancelled while the second one is queued. *)
Definition cancelledWithQueue : list action :=
  (secondQueued ++ [CtxDone 0 ContextCanceled])%list.

(** After the persistent grant for [/repo], the request for [docs/a.txt]
    has been prompted as well. *)
Definition twoPrompts : list action :=
  (askedAgain ++ solo 3 secondID 10)%list.

Definition viewRequest : CreatePermissionRequest :=
  {| optsSessionID := "s1"; optsToolCallID := "tc2"; optsToolName := "view";
     optsDescription := "read a file"; optsAction := "read";
     optsParams := "main.go"; optsPath := "/repo/main.go" |}.

(** Plan mode, and a request to read a file arrives. *)
Definition planModeRead : list action :=
  [ASetMode ModePlan; Call (CallRequest viewRequest)].

(** * Tool names for OAuth (package [agent], [oauth_tools.go]) *)

(** [strings.ToLower] is taken from outside, as the function [ToLower]
    the definitions below are given. *)

Definition claudeCodeToolNames : gmap string string :=
  list_to_map
    [("bash", "Bash"); ("read", "Read"); ("write", "Write"); ("edit", "Edit");
     ("grep", "Grep"); ("glob", "Glob"); ("view", "View")].

(** The loop that builds [reverseToolNames], over the entries in the
    order the [range] yields them. *)
Definition reverseFrom (ToLower : string -> string) (entries : list (string * string))
    : gmap string string :=
  foldl (fun reverse kv => <[ToLower kv.2 := kv.1]> reverse) ∅ entries.

Definition reverseToolNames (ToLower : string -> string) : gmap string string :=
  reverseFrom ToLower (map_to_list claudeCodeToolNames).

Definition ToClaudeCodeName (ToLower : string -> string) (name : string) : string :=
  match claudeCodeToolNames !! ToLower name with
  | Some ccName => ccName
  | None => name
  end.

Definition FromClaudeCodeName (ToLower : string -> string) (name : string) : string :=
  match reverseToolNames ToLower !! ToLower name with
  | Some original => original
  | None => name
  end.

(** [fantasy.ToolInfo]; [Parameters] is a [map[string]any] that is only
    copied. *)
Record ToolInfo := {
  Name : string;
  ToolDescription : string;
  Parameters : string
}.

(** A [fantasy.AgentTool] is a tool of another package, known by what
    its [Info] returns, or an [oauthToolWrapper] around a tool. *)
Inductive AgentTool :=
  | Tool (info : ToolInfo)
  | oauthToolWrapper (inner : AgentTool) (renamedName : string).

Fixpoint Info (tool : AgentTool) : ToolInfo :=
  match tool with
  | Tool info => info
  | oauthToolWrapper inner renamedName =>
      let info := Info inner in
      {| Name := renamedName;
         ToolDescription := ToolDescription info;
         Parameters := Parameters info |}
  end.

Definition WrapToolsForOAuth (ToLower : string -> string) (tools : list AgentTool)
    : list AgentTool :=
  (fun tool =>
     let originalName := Name (Info tool) in
     let renamedName := ToClaudeCodeName ToLower originalName in
     if negb (String.eqb renamedName originalName)
     then oauthToolWrapper tool renamedName
     else tool) <$> tools.

(** What the properties below need of [strings.ToLower]: it takes the
    capitalized names of the table to their keys and leaves the keys as
    they are. *)
Definition lowersToolNames (ToLower : string -> string) : Prop :=
  forall k v, claudeCodeToolNames !! k = Some v -> ToLower v = k /\ ToLower k = k.

(** [strings.ToLower] on strings of ASCII letters. *)
Definition asciiLower (c : Ascii.ascii) : Ascii.ascii :=
  let n := Ascii.nat_of_ascii c in
  if (65 <=? n)%nat && (n <=? 90)%nat then Ascii.ascii_of_nat (n + 32) else c.

Fixpoint asciiToLower (s : string) : string :=
  match s with
  | EmptyString => EmptyString
  | String c s' => String (asciiLower c) (asciiToLower s')
  end.

Definition exampleTools : list AgentTool :=
  [Tool {| Name := "bash"; ToolDescription := "Run shell commands"; Parameters := "" |};
   Tool {| Name := "read"; ToolDescription := "Read files"; Parameters := "" |};
   Tool {| Name := "custom"; ToolDescription := "Custom tool"; Parameters := "" |}].

(** * The OAuth flow of Anthropic (package [anthropic]) *)

Definition clientID : string := "9d1c250a-e61b-44d9-88ed-5944d1962f5e".
Definition authorizeURL : string := "https://claude.ai/oauth/authorize".
Definition redirectURI : string := "https://console.anthropic.com/oauth/code/callback".
Definition scope : string := "org:create_api_key user:profile user:inference".

(** ** [encoding/base64]: [RawURLEncoding.EncodeToString] *)

(** The alphabet [encodeURL] of the URL encoding. *)
Definition encodeURL : list Ascii.ascii :=
  String.list_ascii_of_string "ABCDEFGHIJKLMNOPQRSTUVWXYZabcdefghijklmnopqrstuvwxyz0123456789-_".

(** [enc.encode[i]]. *)
Definition encodeByte (i : N) : Ascii.ascii :=
  nth (N.to_nat i) encodeURL (Ascii.ascii_of_nat 65).

(** [Encode] without padding: three bytes give four characters, a
    remainder of two bytes three and of one byte two. *)
Fixpoint base64_Encode (src : list Byte.byte) : list Ascii.ascii :=
  match src with
  | b0 :: b1 :: b2 :: rest =>
      let val := N.lor (N.lor (N.shiftl (Byte.to_N b0) 16) (N.shiftl (Byte.to_N b1) 8))
                       (Byte.to_N b2) in
      encodeByte (N.land (N.shiftr val 18) 63)
        :: encodeByte (N.land (N.shiftr val 12) 63)
        :: encodeByte (N.land (N.shiftr val 6) 63)
        :: encodeByte (N.land val 63)
        :: base64_Encode rest
  | [b0; b1] =>
      let val := N.lor (N.shiftl (Byte.to_N b0) 16) (N.shiftl (Byte.to_N b1) 8) in
      [encodeByte (N.land (N.shiftr val 18) 63);
       encodeByte (N.land (N.shiftr val 12) 63);
       encodeByte (N.land (N.shiftr val 6) 63)]
  | [b0] =>
      let val := N.shiftl (Byte.to_N b0) 16 in
      [encodeByte (N.land (N.shiftr val 18) 63);
       encodeByte (N.land (N.shiftr val 12) 63)]
  | [] => []
  end.

Definition base64URLEncode (data : list Byte.byte) : string :=
  String.string_of_list_ascii (base64_Encode data).

(** ** [net/url]: [QueryEscape] and [Values.Encode] *)

(** [shouldEscape] in the mode [encodeQueryComponent]: letters, digits
    and [-], [_], [.], [~] are kept. *)
Definition shouldEscape (c : Ascii.ascii) : bool :=
  let n := Ascii.nat_of_ascii c in
  if ((97 <=? n) && (n <=? 122) || (65 <=? n) && (n <=? 90) || (48 <=? n) && (n <=? 57))%nat
  then false
  else if (n =? 45)%nat || (n =? 95)%nat || (n =? 46)%nat || (n =? 126)%nat
  then false
  else true.

Definition upperhex (i : nat) : Ascii.ascii :=
  nth i (String.list_ascii_of_string "0123456789ABCDEF") (Ascii.ascii_of_nat 48).

Fixpoint QueryEscape (s : string) : string :=
  match s with
  | EmptyString => EmptyString
  | String c s' =>
      if shouldEscape c then
        if Ascii.eqb c (Ascii.ascii_of_nat 32)  (* ' ' *)
        then String (Ascii.ascii_of_nat 43) (QueryEscape s')  (* '+' *)
        else
          let n := Ascii.nat_of_ascii c in
          String (Ascii.ascii_of_nat 37)  (* '%' *)
            (String (upperhex (n / 16)) (String (upperhex (n mod 16)) (QueryEscape s')))
      else String c (QueryEscape s')
  end.

(** [slices.Sort] on the keys, by insertion. *)
Fixpoint insertKey (k : string) (keys : list string) : list string :=
  match keys with
  | [] => [k]
  | k' :: keys' => if String.leb k k' then k :: keys else k' :: insertKey k keys'
  end.

Definition sortKeys (keys : list string) : list string :=
  foldr insertKey [] keys.

(** [url.Values] is a map from keys to lists of values; [Encode] writes
    [key=value] for the keys in sorted order, separated by [&]. *)
Definition Values_Encode (v : gmap string (list string)) : string :=
  let keys := sortKeys (fst <$> map_to_list v) in
  let pairs :=
    keys ≫= (fun k =>
      (fun value => QueryEscape k ++ "=" ++ QueryEscape value) <$> default [] (v !! k)) in
  String.concat "&" pairs.

Definition buildAuthURL (challenge state : string) : string :=
  let params : gmap string (list string) :=
    list_to_map
      [("code", ["true"]);
       ("client_id", [clientID]);
       ("redirect_uri", [redirectURI]);
       ("response_type", ["code"]);
       ("scope", [scope]);
       ("code_challenge", [challenge]);
       ("code_challenge_method", ["S256"]);
       ("state", [state])] in
  authorizeURL ++ "?" ++ Values_Encode params.

(** ** PKCE *)

Record AuthParams := {
  AuthURL : string;
  CodeVerifier : string;
  State : string;
  CodeChallenge : string
}.

(** What [rand.Read] on the buffer of 32 bytes gives: the buffer filled,
    or the message of an error. *)
Definition randomRead : Type := list Byte.byte + string.

Definition generateCodeVerifier (read : randomRead) : string + string :=
  match read with
  | inl b => inl (base64URLEncode b)
  | inr err => inr err
  end.

(** [sha256.Sum256] is taken from outside. *)
Definition generateCodeChallenge (Sum256 : list Byte.byte -> list Byte.byte)
    (verifier : string) : string :=
  let hash := Sum256 (String.list_byte_of_string verifier) in
  base64URLEncode hash.

Definition generateState (read : randomRead) : string + string :=
  match read with
  | inl b => inl (base64URLEncode b)
  | inr err => inr err
  end.

(** [InitiateAuth], given what the two calls of [rand.Read] give; an
    error is its message. *)
Definition InitiateAuth (Sum256 : list Byte.byte -> list Byte.byte)
    (read1 read2 : randomRead) : AuthParams + string :=
  match generateCodeVerifier read1 with
  | inr err => inr ("generate code verifier: " ++ err)
  | inl verifier =>
      let challenge := generateCodeChallenge Sum256 verifier in
      match generateState read2 with
      | inr err => inr ("generate state: " ++ err)
      | inl state =>
          let authURL := buildAuthURL challenge state in
          inl {| AuthURL := authURL; CodeVerifier := verifier;
                 State := state; CodeChallenge := challenge |}
      end
  end.

(** The characters [QueryEscape] keeps, as a property of a string. *)
Definition urlSafe (s : string) : Prop :=
  Forall (fun c => shouldEscape c = false) (String.list_ascii_of_string s).

(** A stand-in for [sha256.Sum256] in the examples: 32 bytes. *)
Definition exampleSum256 (data : list Byte.byte) : list Byte.byte :=
  replicate 32 (default Byte.x00 (head data)).

Definition exampleBytes : list Byte.byte :=
  String.list_byte_of_string "0123456789abcdef0123456789abcdef".

(** * Logging in to Anthropic (package [cmd], [login.go]; package
      [dialog]) *)

(** ** [strings.Contains], [strings.Split] and [strings.SplitN] with
       [n = 2], for the one-byte separator the callers pass *)

Fixpoint strings_Contains (s : string) (sep : Ascii.ascii) : bool :=
  match s with
  | EmptyString => false
  | String c s' => if Ascii.eqb c sep then true else strings_Contains s' sep
  end.

Fixpoint strings_Split (s : string) (sep : Ascii.ascii) : list string :=
  match s with
  | EmptyString => [EmptyString]
  | String c s' =>
      if Ascii.eqb c sep then EmptyString :: strings_Split s' sep
      else
        match strings_Split s' sep with
        | part :: parts => String c part :: parts
        | [] => [String c EmptyString]
        end
  end.

Fixpoint strings_SplitN2 (s : string) (sep : Ascii.ascii) : list string :=
  match s with
  | EmptyString => [EmptyString]
  | String c s' =>
      if Ascii.eqb c sep then [EmptyString; s']
      else
        match strings_SplitN2 s' sep with
        | part :: parts => String c part :: parts
        | [] => [String c EmptyString]
        end
  end.

(** The byte [#]. *)
Definition hash : Ascii.ascii := Ascii.ascii_of_nat 35.

(** [oauth.Token]: the fields [ExchangeCode] fills. *)
Record Token := {
  AccessToken : string;
  RefreshToken : string;
  ExpiresIn : Z
}.


(** ** [loginAnthropic] *)







(** ** The dialog [OAuthAnthropic] *)

Module dialog.

Inductive OAuthAnthropicState :=
  | OAuthAnthropicStateReady
  | OAuthAnthropicStateWaitingForCode
  | OAuthAnthropicStateExchanging
  | OAuthAnthropicStateSuccess
  | OAuthAnthropicStateError.

(** The fields of the dialog that [HandleMsg] reads and writes;
    [codeInput] is the value of the text input. *)
Record OAuthAnthropic := {
  dialogState : OAuthAnthropicState;
  codeInput : string;
  authParams : option AuthParams;
  token : option Token;
  errorMessage : string
}.

(** The messages [HandleMsg] tells apart.  A tick says whether the
    spinner answers it with a command; the two results carry, as
    [initiateAuth] and [exchangeCode] build them, the parameters or the
    token, or else the message of the error. *)
Inductive Msg :=
  | SpinnerTickMsg (cmd : bool)
  | KeySubmit
  | KeyClose
  | KeyOther (key : string)
  | ActionAnthropicAuthInitialized (r : AuthParams + string)
  | ActionAnthropicTokenExchanged (r : Token + string)
  | OtherMsg.

(** The actions [HandleMsg] returns. *)
Inductive Action :=
  | ActionNil
  | ActionCmdSpinner
  | ActionCmdInitiateAuth
  | ActionCmdOpenBrowser (url : string)
  | ActionCmdFocus
  | ActionCmdReportError (msg : string)
  | ActionCmdExchangeCode (code state : string)
  | ActionCmdInput
  | ActionClose
  | ActionSelectModel.

(** What the dialog takes from outside: [strings.TrimSpace], the text
    input's [Update] (the new value and whether it returns a command)
    and the error of [SetProviderAPIKey]. *)
Record dialogEnv := {
  dialogTrimSpace : string -> string;
  inputUpdate : string -> Msg -> string * bool;
  SetProviderAPIKey : Token -> option string
}.


Definition setDialogState (s : OAuthAnthropicState) (m : OAuthAnthropic) : OAuthAnthropic :=
  {| dialogState := s; codeInput := codeInput m; authParams := authParams m;
     token := token m; errorMessage := errorMessage m |}.


Definition submitCode (env : dialogEnv) (m : OAuthAnthropic)
    : option (OAuthAnthropic * Action) :=
  let input := dialogTrimSpace env (codeInput m) in
  if String.eqb input EmptyString
  then Some (m, ActionCmdReportError "please enter the code")
  else if negb (strings_Contains input hash)
  then Some (m, ActionCmdReportError "invalid format: expected code#state")
  else
    let parts := strings_SplitN2 input hash in
    let code := nth 0 parts EmptyString in
    let state := nth 1 parts EmptyString in
    match authParams m with
    | None => None
    | Some a =>
        if negb (String.eqb state (State a))
        then Some (m, ActionCmdReportError "state mismatch - please try again")
        else Some (setDialogState OAuthAnthropicStateExchanging m,
                   ActionCmdExchangeCode code state)
    end.





End dialog.

(** Examples: a text input that takes the text of a key, and a login
    that pastes [abc#xyz#more]. *)
Definition exampleDialogEnv : dialog.dialogEnv :=
  {| dialog.dialogTrimSpace := fun s => s;
     dialog.inputUpdate := fun value msg =>
       match msg with dialog.KeyOther key => (value ++ key, false) | _ => (value, false) end;
     dialog.SetProviderAPIKey := fun _ => None |}.

Definition exampleAuthParams : AuthParams :=
  {| AuthURL := buildAuthURL "challenge" "xyz"; CodeVerifier := "verifier";
     State := "xyz"; CodeChallenge := "challenge" |}.



(** The dialog waits with [abc#xyz] typed in, and a session of the
    dialog from the first key to the exchanged token. *)
Definition exampleWaiting : dialog.OAuthAnthropic :=
  {| dialog.dialogState := dialog.OAuthAnthropicStateWaitingForCode;
     dialog.codeInput := "abc#xyz";
     dialog.authParams := Some exampleAuthParams;
     dialog.token := None;
     dialog.errorMessage := "" |}.


(** ** How a step changes the pool of threads *)

Lemma step_Run env t o w w' :
  step env (Run t o) w = Some w' ->
  exists th th' m',
    threads w !! t = Some th /\ thread_step env t o th w = Some (th', m') /\
    w' = {| mem := m'; threads := <[t := th']> (threads w) |}.
Proof.
  simpl. intros H.
  destruct (threads w !! t) as [th|] eqn:Hth; [|discriminate].
  destruct (thread_step env t o th w) as [[th' m']|] eqn:Hs; [|discriminate].
  exists th, th', m'. split; [reflexivity|]. split; [exact Hs|]. congruence.
Qed.

Lemma step_Run_intro env t o w th th' m' :
  threads w !! t = Some th -> thread_step env t o th w = Some (th', m') ->
  step env (Run t o) w = Some {| mem := m'; threads := <[t := th']> (threads w) |}.
Proof. intros Hth Hs. simpl. rewrite Hth, Hs. reflexivity. Qed.

Lemma lookup_pool_insert (l : list thread) t th' t1 th1 :
  t < length l ->
  <[t := th']> l !! t1 = Some th1 ->
  (t1 = t /\ th1 = th') \/ (t1 <> t /\ l !! t1 = Some th1).
Proof.
  intros Hlt H. destruct (decide (t1 = t)) as [->|Hne].
  - rewrite list_lookup_insert_eq in H by exact Hlt. left. split; congruence.
  - rewrite list_lookup_insert_ne in H by congruence. right. split; assumption.
Qed.

Lemma lookup_pool_snoc (l : list thread) th' t1 th1 :
  (l ++ [th'])%list !! t1 = Some th1 ->
  (t1 = length l /\ th1 = th') \/ l !! t1 = Some th1.
Proof.
  intros H. apply lookup_app_Some in H as [H|[Hle H]]; [right; exact H|].
  left. destruct (t1 - length l) as [|k] eqn:Hk; simpl in H; [|destruct k; discriminate].
  split; [lia|congruence].
Qed.

(** A run preserves what every step preserves. *)
Lemma run_invariant env (Inv : world -> Prop) :
  (forall a w w', Inv w -> step env a w = Some w' -> Inv w') ->
  forall sched w w', Inv w -> run env sched w = Some w' -> Inv w'.
Proof.
  intros Hstep sched. induction sched as [|a sched IH]; simpl; intros w w' Hw H.
  - congruence.
  - destruct (step env a w) as [w1|] eqn:Ha; [|discriminate].
    eapply IH; [|exact H]. eapply Hstep; eassumption.
Qed.

Lemma run_app env s1 s2 w :
  run env (s1 ++ s2)%list w =
  match run env s1 w with Some w1 => run env s2 w1 | None => None end.
Proof.
  revert w. induction s1 as [|a s1 IH]; simpl; intros w; [reflexivity|].
  destruct (step env a w); [apply IH|reflexivity].
Qed.

Lemma reachable_run env sched w w' :
  reachable env w -> run env sched w = Some w' -> reachable env w'.
Proof.
  intros (wd & skip & al & s0 & H0) H.
  exists wd, skip, al, (s0 ++ sched)%list. rewrite run_app, H0. exact H.
Qed.

(** The case analysis on the operation a thread runs. *)
Ltac thread_cases H :=
  match type of H with
  | thread_step _ _ _ ?th _ = Some _ =>
      destruct th as [? ? [] | ? ? []]; simpl in H;
      repeat case_match; simplify_eq
  end.

(** The three ways a pool changes: a call appends a thread, a thread runs
    an operation, a context ends. *)
Ltac action_cases H a :=
  destruct a as [?c|?t ?o|?t ?e|?m|?skip|?sid];
  [ simpl in H; simplify_eq
  | apply step_Run in H as (?th & ?th' & ?m1 & ?Hth & ?Hs & ->)
  | simpl in H;
    match type of H with
    | match threads ?w !! ?t with _ => _ end = _ =>
        let Hth := fresh "Hth" in
        destruct (threads w !! t) as [[? [?|] ?|]|] eqn:Hth; simplify_eq
    end
  | simpl in H; simplify_eq
  | simpl in H; simplify_eq
  | simpl in H; simplify_eq ].

(** ** Mutual exclusion on [requestMu] *)

Lemma mutex_inv_step env a w w' :
  mutex_inv w -> step env a w = Some w' -> mutex_inv w'.
Proof.
  intros Inv H. action_cases H a.
  - intros t1 th1 H1 Hc. simpl in *.
    apply lookup_pool_snoc in H1 as [[_ ->]|H1]; [destruct c; discriminate|].
    eapply Inv; eassumption.
  - pose proof (lookup_lt_Some _ _ _ Hth) as Hlt.
    pose proof (Inv t th Hth) as Ht.
    intros t1 th1 H1 Hc. simpl in H1.
    apply lookup_pool_insert in H1 as [[-> ->]|[Hne H1]]; [| |exact Hlt].
    + thread_cases Hs; simpl in *; try discriminate; try reflexivity; auto.
    + pose proof (Inv t1 th1 H1 Hc) as Ht1.
      thread_cases Hs; simpl in *; try assumption; try congruence.
      specialize (Ht eq_refl). congruence.
  - pose proof (lookup_lt_Some _ _ _ Hth) as Hlt.
    intros t1 th1 H1 Hc. simpl in *.
    apply lookup_pool_insert in H1 as [[-> ->]|[Hne H1]]; [| |exact Hlt].
    + apply (Inv t _ Hth Hc).
    + apply (Inv t1 _ H1 Hc).
  - exact Inv.
  - destruct skip; exact Inv.
  - exact Inv.
Qed.

(** ** The Pending Request Table holds the registered slots *)

Lemma pending_inv_step env a w w' :
  mutex_inv w -> pending_inv w -> step env a w = Some w' -> pending_inv w'.
Proof.
  intros Mx Inv H. action_cases H a.
  - intros t1 th1 p ch H1 Hr. simpl in *.
    apply lookup_pool_snoc in H1 as [[_ ->]|H1]; [destruct c; discriminate|].
    eapply Inv; eassumption.
  - pose proof (lookup_lt_Some _ _ _ Hth) as Hlt.
    intros t1 th1 p ch H1 Hr. simpl in H1.
    apply lookup_pool_insert in H1 as [[-> ->]|[Hne H1]]; [| |exact Hlt].
    + pose proof (Inv t th) as It.
      thread_cases Hs; simpl in *; simplify_eq;
        try (eapply It; [eassumption|reflexivity]).
      apply lookup_insert_eq.
    + pose proof (Inv t1 th1 p ch H1 Hr) as I1.
      assert (Hl1 : holdsLock th1 = true)
        by (destruct th1 as [? ? []|]; simpl in *; congruence).
      pose proof (Mx t1 th1 H1 Hl1) as M1.
      pose proof (Mx t th Hth) as Mt.
      thread_cases Hs; simpl in *; try assumption;
        specialize (Mt eq_refl); congruence.
  - pose proof (lookup_lt_Some _ _ _ Hth) as Hlt.
    intros t1 th1 p ch H1 Hr. simpl in *.
    apply lookup_pool_insert in H1 as [[-> ->]|[Hne H1]]; [| |exact Hlt].
    + eapply (Inv t); [exact Hth|exact Hr].
    + eapply Inv; eassumption.
  - exact Inv.
  - destruct skip; exact Inv.
  - exact Inv.
Qed.

(** ** The IDs of the requests in use *)

Lemma issued_mono env a w w' id :
  step env a w = Some w' -> id ∈ issued w -> id ∈ issued w'.
Proof.
  intros H Hid. action_cases H a; simpl; try assumption.
  thread_cases Hs; simpl; try assumption. apply list_elem_of_further. exact Hid.
Qed.

(** What an operation does to the request a thread carries: it keeps
    it, drops it, or takes a fresh one from [uuid.New]. *)
Lemma carried_step env t o th (w : memory) th' w1 q :
  thread_step env t o th w = Some (th', w1) -> carried th' = Some q ->
  carried th = Some q \/
  (carried th = None /\ (ID q ∉ issued w) /\ issued w1 = ID q :: issued w).
Proof.
  intros Hs Hq. thread_cases Hs; simpl in *; simplify_eq; auto.
  right. split; [reflexivity|]. split; [|reflexivity].
  match goal with H : bool_decide _ = false |- _ => apply bool_decide_eq_false in H; exact H end.
Qed.

Lemma ids_inv_step env a w w' :
  ids_inv w -> step env a w = Some w' -> ids_inv w'.
Proof.
  intros [Ia Ib] H. pose proof (issued_mono env a w w') as Hmono.
  specialize (fun id => Hmono id H).
  action_cases H a.
  - split.
    + intros t1 th1 p H1 Hc. simpl in *.
      apply lookup_pool_snoc in H1 as [[_ ->]|H1]; [destruct c; discriminate|].
      eapply Ia; eassumption.
    + intros t1 t2 th1 th2 p1 p2 H1 H2 Hc1 Hc2 Heq. simpl in *.
      apply lookup_pool_snoc in H1 as [[_ ->]|H1]; [destruct c; discriminate|].
      apply lookup_pool_snoc in H2 as [[_ ->]|H2]; [destruct c; discriminate|].
      eapply Ib; eassumption.
  - pose proof (lookup_lt_Some _ _ _ Hth) as Hlt.
    pose proof (fun q => carried_step env t o th w th' m1 q Hs) as Hcar.
    assert (Hiss : forall x, x ∈ issued w -> x ∈ issued m1) by (intros x; apply Hmono).
    split.
    + intros t1 th1 p H1 Hc. simpl in *.
      apply lookup_pool_insert in H1 as [[-> ->]|[Hne H1]]; [| |exact Hlt].
      * destruct (Hcar p Hc) as [Hk|(_ & _ & Hnew)].
        -- apply Hiss. eapply Ia; eassumption.
        -- rewrite Hnew. apply list_elem_of_here.
      * apply Hiss. eapply Ia; eassumption.
    + intros t1 t2 th1 th2 p1 p2 H1 H2 Hc1 Hc2 Heq. simpl in *.
      apply lookup_pool_insert in H1 as [[-> ->]|[Hne1 H1]]; [| |exact Hlt];
      apply lookup_pool_insert in H2 as [[-> ->]|[Hne2 H2]]; try exact Hlt;
        try reflexivity.
      * destruct (Hcar p1 Hc1) as [Hk|(_ & Hfresh & _)].
        -- eapply Ib; eassumption.
        -- exfalso. apply Hfresh. rewrite Heq. eapply Ia; eassumption.
      * destruct (Hcar p2 Hc2) as [Hk|(_ & Hfresh & _)].
        -- eapply Ib; eassumption.
        -- exfalso. apply Hfresh. rewrite <- Heq. eapply Ia; eassumption.
      * eapply Ib; eassumption.
  - pose proof (lookup_lt_Some _ _ _ Hth) as Hlt. split.
    + intros t1 th1 p H1 Hc. simpl in *.
      apply lookup_pool_insert in H1 as [[-> ->]|[Hne H1]]; [| |exact Hlt].
      * eapply (Ia t); [exact Hth|exact Hc].
      * eapply Ia; eassumption.
    + intros t1 t2 th1 th2 p1 p2 H1 H2 Hc1 Hc2 Heq. simpl in *.
      apply lookup_pool_insert in H1 as [[-> ->]|[Hne1 H1]]; [| |exact Hlt];
      apply lookup_pool_insert in H2 as [[-> ->]|[Hne2 H2]]; try exact Hlt;
        try reflexivity.
      * eapply (Ib t t2); [exact Hth|exact H2|exact Hc1|exact Hc2|exact Heq].
      * eapply (Ib t1 t); [exact H1|exact Hth|exact Hc1|exact Hc2|exact Heq].
      * eapply Ib; eassumption.
  - split; assumption.
  - destruct skip; split; assumption.
  - split; assumption.
Qed.

(** ** The Session Permission Cache only grows *)

Lemma cache_mono env a w w' p :
  step env a w = Some w' ->
  p ∈ sessionPermissions (svc w) -> p ∈ sessionPermissions (svc w').
Proof.
  intros H Hp. action_cases H a; simpl; try assumption.
  - thread_cases Hs; simpl; try assumption.
    apply elem_of_app. left. exact Hp.
  - destruct skip; exact Hp.
Qed.

Lemma cache_mono_run env sched w w' p :
  run env sched w = Some w' ->
  p ∈ sessionPermissions (svc w) -> p ∈ sessionPermissions (svc w').
Proof.
  intros H Hp. revert H.
  apply (run_invariant env (fun w => p ∈ sessionPermissions (svc w))); [|exact Hp].
  intros a w0 w1 H0 Hs. eapply cache_mono; eassumption.
Qed.

Lemma cached_inv_step env a w w' :
  cached_inv w -> step env a w = Some w' -> cached_inv w'.
Proof.
  intros Inv H. pose proof (cache_mono env a w w') as Hmono.
  specialize (fun p => Hmono p H).
  action_cases H a.
  - intros t1 p pc1 H1 Hpc. simpl in H1.
    apply lookup_pool_snoc in H1 as [[_ Heq]|H1].
    + destruct c; simpl in Heq; simplify_eq; destruct Hpc; discriminate.
    + apply Hmono. eapply Inv; eassumption.
  - pose proof (lookup_lt_Some _ _ _ Hth) as Hlt.
    intros t1 p pc1 H1 Hpc. simpl in H1.
    apply lookup_pool_insert in H1 as [[-> Heq]|[Hne H1]]; [| |exact Hlt].
    + pose proof (Inv t p) as It.
      assert (Hm : forall x, x ∈ sessionPermissions (svc w) -> x ∈ sessionPermissions (svc m1))
        by (intros x; apply Hmono).
      thread_cases Hs; simpl in *; simplify_eq;
        try (destruct Hpc; discriminate);
        try (apply Hm; eapply It; [eassumption|auto]; fail);
        try (eapply It; [eassumption|auto]; fail).
      apply elem_of_app. right. apply list_elem_of_singleton. reflexivity.
    + apply Hmono. eapply Inv; eassumption.
  - pose proof (lookup_lt_Some _ _ _ Hth) as Hlt.
    intros t1 p pc1 H1 Hpc. simpl in H1.
    apply lookup_pool_insert in H1 as [[-> Heq]|[Hne H1]]; [discriminate| |exact Hlt].
    eapply Inv; eassumption.
  - exact Inv.
  - destruct skip; exact Inv.
  - exact Inv.
Qed.

(** ** Every reachable world satisfies the invariants *)

Lemma service_inv_step env a w w' :
  service_inv w -> step env a w = Some w' -> service_inv w'.
Proof.
  intros (Mx & Pd & Ids & Ch) H. repeat split.
  - eapply mutex_inv_step; eassumption.
  - eapply pending_inv_step; eassumption.
  - eapply ids_inv_step; eassumption.
  - eapply ids_inv_step; eassumption.
  - eapply cached_inv_step; eassumption.
Qed.

Lemma service_inv_boot workingDir skip allowedTools :
  service_inv (boot workingDir skip allowedTools).
Proof.
  repeat split; intro; intros; simpl in *;
    match goal with H : [] !! _ = Some _ |- _ => rewrite lookup_nil in H; discriminate end.
Qed.

Lemma reachable_inv env w : reachable env w -> service_inv w.
Proof.
  intros (wd & skip & al & sched & H).
  eapply (run_invariant env service_inv); [|apply service_inv_boot|exact H].
  intros a w0 w1. apply service_inv_step.
Qed.

(** ** A retired ID stays retired *)

Lemma retired_step env a w w' id :
  retired id w -> step env a w = Some w' -> retired id w'.
Proof.
  intros (Hi & Hc & Hp) H. pose proof (issued_mono env a w w' id H Hi) as Hi'.
  split; [exact Hi'|]. clear Hi'.
  action_cases H a.
  - split; [|exact Hp]. intros t1 th1 q H1 Hq. simpl in *.
    apply lookup_pool_snoc in H1 as [[_ ->]|H1]; [destruct c; discriminate|].
    eapply Hc; eassumption.
  - pose proof (lookup_lt_Some _ _ _ Hth) as Hlt.
    pose proof (fun q => carried_step env t o th w th' m1 q Hs) as Hcar.
    split.
    + intros t1 th1 q H1 Hq. simpl in *.
      apply lookup_pool_insert in H1 as [[-> ->]|[Hne H1]]; [| |exact Hlt].
      * destruct (Hcar q Hq) as [Hk|(_ & Hfresh & _)].
        -- eapply Hc; eassumption.
        -- intros Heq. apply Hfresh. rewrite Heq. exact Hi.
      * eapply Hc; eassumption.
    + pose proof (Hc t th) as Hct.
      thread_cases Hs; simpl in *; try assumption.
      * rewrite lookup_insert_ne; [exact Hp|]. eapply Hct; [exact Hth|reflexivity].
      * destruct (decide (ID permission = id)) as [->|Hne].
        -- apply lookup_delete_eq.
        -- rewrite lookup_delete_ne by exact Hne. exact Hp.
  - pose proof (lookup_lt_Some _ _ _ Hth) as Hlt. split; [|exact Hp].
    intros t1 th1 q H1 Hq. simpl in *.
    apply lookup_pool_insert in H1 as [[-> ->]|[Hne H1]]; [| |exact Hlt].
    + eapply (Hc t); [exact Hth|exact Hq].
    + eapply Hc; eassumption.
  - split; assumption.
  - destruct skip; split; assumption.
  - split; assumption.
Qed.

Lemma retired_run env sched w w' id :
  retired id w -> run env sched w = Some w' -> retired id w'.
Proof.
  apply (run_invariant env (retired id)). intros a w0 w1. apply retired_step.
Qed.

(** ** A thread running alone *)

Lemma run_solo env t o n : forall (w : world) th th' m',
  threads w !! t = Some th ->
  thread_steps env t o n th w = Some (th', m') ->
  run env (solo t o n) w = Some {| mem := m'; threads := <[t := th']> (threads w) |}.
Proof.
  induction n as [|n IH]; intros w th th' m' Hth H; simpl in *.
  - simplify_eq. rewrite list_insert_id by exact Hth. destruct w; reflexivity.
  - destruct (thread_step env t o th w) as [[th1 m1]|] eqn:E; [|discriminate].
    rewrite Hth, E.
    pose proof (lookup_lt_Some _ _ _ Hth) as Hlt.
    rewrite (IH {| mem := m1; threads := <[t := th1]> (threads w) |} th1 th' m').
    + simpl. rewrite list_insert_insert_eq. reflexivity.
    + simpl. apply list_lookup_insert_eq. exact Hlt.
    + exact H.
Qed.


Lemma cache_hit (cache : list PermissionRequest) p permission :
  p ∈ cache -> samePermission p permission = true ->
  existsb (fun q => samePermission q permission) cache = true.
Proof.
  intros Hin Hs. apply existsb_exists. exists p. split; [|exact Hs].
  apply list_elem_of_In. exact Hin.
Qed.

Lemma cache_miss (cache : list PermissionRequest) permission :
  (forall q, q ∈ cache -> samePermission q permission = false) ->
  existsb (fun q => samePermission q permission) cache = false.
Proof.
  intros H. apply not_true_is_false. intros E.
  apply existsb_exists in E as (q & Hin & Hq).
  apply list_elem_of_In in Hin. rewrite (H q Hin) in Hq. discriminate.
Qed.

(** ** A memoized request stays on the fast paths *)



(** ** The mode gate *)

Lemma slices_Contains_elem (l : list string) (v : string) :
  slices_Contains l v = true <-> v ∈ l.
Proof.
  induction l as [|x l IH]; simpl.
  - split; [discriminate|]. intros H. inversion H.
  - destruct (String.eqb x v) eqn:E.
    + apply String.eqb_eq in E as ->. split; [intros _; apply list_elem_of_here|reflexivity].
    + apply String.eqb_neq in E. rewrite IH. split.
      * apply list_elem_of_further.
      * intros H. apply elem_of_cons in H as [H|H]; [congruence|exact H].
Qed.

(** C2.  In Plan mode a request whose action is [write] or [execute] and
    whose tool is not the exempted read-only tool returns, in its first
    operation, [(false, err)] with the error "write operations are not
    allowed in plan mode"; the world is the same but for the returned
    call: no prompt and no notification is published, whatever the
    allowlist, the cache and the auto-approve flags hold. *)
Theorem plan_mode_write_block env w t o opts ctx :
  threads w !! t = Some (TRequest opts ctx RStart) ->
  mode (svc w) = ModePlan ->
  optsAction opts = "write" \/ optsAction opts = "execute" ->
  optsToolName opts <> "mcp_sequential-thinking_sequentialthinking" ->
  exists w',
    step env (Run t o) w = Some w' /\
    threads w' = <[t := TRequest opts ctx
                     (RDone (false, Some (Errorf "write operations are not allowed in plan mode")))]>
                   (threads w) /\
    svc w' = svc w /\ chans w' = chans w /\
    Broker (svc w') = Broker (svc w) /\
    notificationBroker (svc w') = notificationBroker (svc w).
Proof.
  intros Hth Hm Hact Htool.
  assert (Hw : isWriteOperation (optsAction opts) = true).
  { apply slices_Contains_elem. destruct Hact as [-> | ->]; set_solver. }
  assert (Hr : isReadOnlyTool (optsToolName opts) = false).
  { apply not_true_is_false. intros H. apply slices_Contains_elem in H.
    apply list_elem_of_singleton in H. contradiction. }
  eexists. split.
  - eapply step_Run_intro; [exact Hth|]. simpl. rewrite Hm, Hw, Hr. reflexivity.
  - repeat split.
Qed.

(** C3.  In Yolo mode a request returns [(true, nil)] in its first
    operation; the world is the same but for the returned call: the
    request stream and the notification stream are untouched. *)
Theorem yolo_mode_silent env w t o opts ctx :
  threads w !! t = Some (TRequest opts ctx RStart) ->
  mode (svc w) = ModeYolo ->
  exists w',
    step env (Run t o) w = Some w' /\
    threads w' = <[t := TRequest opts ctx (RDone (true, None))]> (threads w) /\
    svc w' = svc w /\
    Broker (svc w') = Broker (svc w) /\
    notificationBroker (svc w') = notificationBroker (svc w).
Proof.
  intros Hth Hm. eexists. split.
  - eapply step_Run_intro; [exact Hth|]. simpl. rewrite Hm. reflexivity.
  - repeat split.
Qed.

(** C10.  [SkipRequests] answers true exactly in Yolo mode, and
    [SetSkipRequests(false)] sets the mode to Regular whatever it was: from
    Plan mode it leaves Plan mode. *)
Theorem deprecated_controls_leave_plan_mode s :
  (SkipRequests s = true <-> GetMode s = ModeYolo) /\
  GetMode (SetSkipRequests false s) = ModeRegular /\
  GetMode (SetSkipRequests true s) = ModeYolo /\
  GetMode (SetSkipRequests false (SetMode ModePlan s)) = ModeRegular /\
  GetMode (SetMode ModePlan s) = ModePlan.
Proof.
  unfold SkipRequests. rewrite bool_decide_eq_true. repeat split; auto.
Qed.

(** In Plan mode the request for [bash] is refused although [bash] is on
    the allowlist, its session is flagged auto-approve and the cache holds
    a matching record. *)
Lemma plan_mode_write_block_witness :
  let w := after ["bash"] planModeSchedule in
  (allowlisted (svc w) (bashRequest "/repo") = true /\
   autoApproved (svc w) (bashRequest "/repo") = true /\
   bashPermission ∈ sessionPermissions (svc w)) /\
  exists w',
    step exampleEnv (Run 1 firstID) w = Some w' /\
    threads w' = <[1 := TRequest (bashRequest "/repo") None
                     (RDone (false, Some (Errorf "write operations are not allowed in plan mode")))]>
                   (threads w) /\
    svc w' = svc w /\ chans w' = chans w /\
    Broker (svc w') = Broker (svc w) /\
    notificationBroker (svc w') = notificationBroker (svc w).
Proof.
  split.
  - split; [reflexivity|]. split; [reflexivity|]. vm_compute. apply list_elem_of_here.
  - apply (plan_mode_write_block exampleEnv (after ["bash"] planModeSchedule) 1 firstID
             (bashRequest "/repo") None).
    + reflexivity.
    + reflexivity.
    + right. reflexivity.
    + discriminate.
Defined.

(** In Yolo mode the request for [bash] returns at once and the service
    is untouched. *)
Lemma yolo_mode_silent_witness :
  let w := after [] yoloModeSchedule in
  exists w',
    step exampleEnv (Run 0 firstID) w = Some w' /\
    threads w' = <[0 := TRequest (bashRequest "/repo") None (RDone (true, None))]> (threads w) /\
    svc w' = svc w /\
    Broker (svc w') = Broker (svc w) /\
    notificationBroker (svc w') = notificationBroker (svc w).
Proof.
  apply (yolo_mode_silent exampleEnv (after [] yoloModeSchedule) 0 firstID
           (bashRequest "/repo") None); reflexivity.
Defined.

(** ** Single-flight prompting *)

Lemma holdsLock_unique w t1 t2 th1 th2 :
  mutex_inv w ->
  threads w !! t1 = Some th1 -> threads w !! t2 = Some th2 ->
  holdsLock th1 = true -> holdsLock th2 = true -> t1 = t2.
Proof.
  intros Mx H1 H2 L1 L2.
  pose proof (Mx _ _ H1 L1). pose proof (Mx _ _ H2 L2). congruence.
Qed.

(** The only operation that grows the request stream is the [Publish]
    of line 241. *)
Lemma Broker_step env a w w' :
  step env a w = Some w' -> Broker (svc w') <> Broker (svc w) ->
  exists t o opts ctx p ch,
    a = Run t o /\ threads w !! t = Some (TRequest opts ctx (RPublish p ch)) /\
    Broker (svc w') = (Broker (svc w) ++ [p])%list.
Proof.
  intros H Hne. action_cases H a; simpl in Hne; try (exfalso; apply Hne; reflexivity).
  - thread_cases Hs; simpl in Hne; try (exfalso; apply Hne; reflexivity).
    repeat eexists; eassumption.
  - destruct skip; exfalso; apply Hne; reflexivity.
Qed.

Lemma awaitsDecision_holdsLock th : awaitsDecision th = true -> holdsLock th = true.
Proof. destruct th as [? ? []|]; simpl; congruence. Qed.

(** C1.  In every reachable world: (1) a request between
    [requestMu.Lock] and the deferred unlock, that is from the fast-path
    checks through the wait and the cleanup, is the holder of
    [requestMu], so (2) at most one request is there; (3) an operation
    that publishes a prompt on the request stream is the [Publish] of a
    request, and at that moment no other request holds the lock, in
    particular none waits for a decision on a published prompt; and
    (4) a request leaves the wait only with the end of its context or
    with a decision received from its channel. *)
Theorem single_flight env w :
  reachable env w ->
  (forall t th, threads w !! t = Some th -> holdsLock th = true ->
     requestMu (svc w) = Some t) /\
  (forall t1 t2 th1 th2,
     threads w !! t1 = Some th1 -> threads w !! t2 = Some th2 ->
     holdsLock th1 = true -> holdsLock th2 = true -> t1 = t2) /\
  (forall a w', step env a w = Some w' -> Broker (svc w') <> Broker (svc w) ->
     exists t o opts ctx p ch,
       a = Run t o /\ threads w !! t = Some (TRequest opts ctx (RPublish p ch)) /\
       Broker (svc w') = Publish (Broker (svc w)) p /\
       forall t1 th1, threads w !! t1 = Some th1 -> t1 <> t ->
         holdsLock th1 = false /\ awaitsDecision th1 = false) /\
  (forall t o opts ctx p ch w',
     threads w !! t = Some (TRequest opts ctx (RWait p ch)) ->
     step env (Run t o) w = Some w' ->
     (exists e, ctx = Some e /\
        threads w' !! t = Some (TRequest opts ctx (RDel p (false, Some e)))) \/
     (exists granted, chans w !! ch = Some (Some granted) /\
        threads w' !! t = Some (TRequest opts ctx (RDel p (granted, None))))).
Proof.
  intros Hr. destruct (reachable_inv env w Hr) as (Mx & _).
  split; [exact Mx|]. split; [intros; eapply holdsLock_unique; eassumption|]. split.
  - intros a w' Hs Hne.
    destruct (Broker_step env a w w' Hs Hne) as (t & o & opts & ctx & p & ch & -> & Hth & Hb).
    exists t, o, opts, ctx, p, ch.
    split; [reflexivity|]. split; [exact Hth|]. split; [exact Hb|].
    intros t1 th1 H1 Hne1. split.
    + destruct (holdsLock th1) eqn:L; [|reflexivity].
      exfalso. apply Hne1. eapply (holdsLock_unique w t1 t); try eassumption. reflexivity.
    + destruct (awaitsDecision th1) eqn:A; [|reflexivity].
      exfalso. apply Hne1. eapply (holdsLock_unique w t1 t); try eassumption;
        [apply awaitsDecision_holdsLock; exact A|reflexivity].
  - intros t o opts ctx p ch w' Hth Hs.
    pose proof (lookup_lt_Some _ _ _ Hth) as Hlt.
    simpl in Hs. rewrite Hth in Hs. simpl in Hs.
    destruct ctx as [e|]; destruct (chans w !! ch) as [[v|]|] eqn:Hch;
      try destruct (select_recv o); simplify_eq; simpl;
      rewrite list_lookup_insert_eq by exact Hlt; eauto.
Qed.

(** While the first request waits, the second one is blocked at
    [requestMu.Lock] and the first one holds the lock. *)
Lemma single_flight_witness :
  let w := after [] secondQueued in
  (threads w !! 0 = Some (TRequest (bashRequest "/repo") None (RWait bashPermission 0)) /\
   threads w !! 1 = Some (TRequest (bashRequest "/repo/main.go") None RLock) /\
   step exampleEnv (Run 1 secondID) w = None) /\
  requestMu (svc w) = Some 0.
Proof.
  split; [vm_compute; repeat split|].
  assert (Hr : reachable exampleEnv (after [] secondQueued)).
  { exists "/repo", false, [], secondQueued. vm_compute. reflexivity. }
  apply (proj1 (single_flight exampleEnv (after [] secondQueued) Hr) 0
           (TRequest (bashRequest "/repo") None (RWait bashPermission 0)));
    reflexivity.
Defined.

(** ** Decision calls without a pending slot *)

(** C4, as the code has it.  A [Grant], [GrantPersistent] or [Deny]
    whose ID has no slot in the Pending Request Table never blocks: every
    operation but the send is always enabled, and the call runs to its
    return without a send.  It delivers no decision and leaves the
    channels, the Pending Request Table and the request stream as they
    are; it does publish its notification, [GrantPersistent] does append
    the record to the Session Permission Cache, and the Active Request is
    cleared when its ID is the one of the call. *)
Theorem stale_decision_call env (w : world) t o d p :
  threads w !! t = Some (TDecision d p DNotify) ->
  pendingRequests (svc w) !! ID p = None ->
  (forall (m : memory) pc, pc <> DDone -> (forall ch, pc <> DSend ch) ->
     is_Some (Decision_step d p pc m)) /\
  exists w',
    run env (solo t o (match d with DGrantPersistent => 4 | _ => 3 end)) w = Some w' /\
    threads w' = <[t := TDecision d p DDone]> (threads w) /\
    chans w' = chans w /\
    pendingRequests (svc w') = pendingRequests (svc w) /\
    Broker (svc w') = Broker (svc w) /\
    notificationBroker (svc w') =
      Publish (notificationBroker (svc w)) (decisionNotification d p) /\
    sessionPermissions (svc w') =
      match d with
      | DGrantPersistent => (sessionPermissions (svc w) ++ [p])%list
      | _ => sessionPermissions (svc w)
      end /\
    activeRequest (svc w') = clearActive p (activeRequest (svc w)).
Proof.
  intros Hth Hp. split.
  - intros m pc Hd Hs. destruct pc; simpl; try (eexists; reflexivity).
    + destruct (pendingRequests (svc m) !! ID p); eexists; reflexivity.
    + exfalso. eapply Hs. reflexivity.
    + destruct (activeRequest (svc m)) as [a|]; [destruct (String.eqb (ID a) (ID p))|];
        eexists; reflexivity.
    + contradiction.
  - unfold clearActive.
    destruct (activeRequest (svc w)) as [a|] eqn:Ha;
      [destruct (String.eqb (ID a) (ID p)) eqn:E|];
      destruct d;
      (eexists; split;
       [ eapply run_solo; [exact Hth|]; simpl; rewrite Hp; simpl; rewrite Ha;
         try rewrite E; reflexivity
       | simpl; repeat split; try assumption ]).
Qed.

(** C4, as stated, fails.  After the request with ID [id-1] was
    cancelled its ID has no slot; the [GrantPersistent] that comes then
    runs to its return and changes the Session Permission Cache, the
    Active Request and the notification stream. *)
Lemma stale_decision_changes_state :
  let w := after [] lateDecision in
  pendingRequests (svc w) !! ID bashPermission = None /\
  exists w',
    run exampleEnv (solo 1 firstID 4) w = Some w' /\
    threads w' !! 1 = Some (TDecision DGrantPersistent bashPermission DDone) /\
    sessionPermissions (svc w) = [] /\
    sessionPermissions (svc w') = [bashPermission] /\
    activeRequest (svc w) = Some bashPermission /\
    activeRequest (svc w') = None /\
    length (notificationBroker (svc w)) = 1 /\
    length (notificationBroker (svc w')) = 2.
Proof.
  split; [reflexivity|].
  eexists. split; [vm_compute; reflexivity|]. vm_compute. repeat split.
Qed.

(** The late [GrantPersistent] after the cancellation runs its four
    operations. *)
Lemma stale_decision_call_witness :
  let w := after [] lateDecision in
  exists w',
    run exampleEnv (solo 1 firstID 4) w = Some w' /\
    threads w' = <[1 := TDecision DGrantPersistent bashPermission DDone]> (threads w) /\
    chans w' = chans w /\
    pendingRequests (svc w') = pendingRequests (svc w) /\
    Broker (svc w') = Broker (svc w) /\
    notificationBroker (svc w') =
      Publish (notificationBroker (svc w))
        (decisionNotification DGrantPersistent bashPermission) /\
    sessionPermissions (svc w') = (sessionPermissions (svc w) ++ [bashPermission])%list /\
    activeRequest (svc w') = clearActive bashPermission (activeRequest (svc w)).
Proof.
  apply (proj2 (stale_decision_call exampleEnv (after [] lateDecision) 1 firstID
                  DGrantPersistent bashPermission eq_refl eq_refl)).
Defined.

(** ** [GrantPersistent]: delivery, then the cache *)

(** C5, as stated, fails.  [GrantPersistent] has sent [true] and not yet
    appended; the request has received the decision and returned
    [(true, nil)], and the Session Permission Cache is still empty. *)
Lemma granted_before_cached :
  let w := after [] grantedBeforeCached in
  reachable exampleEnv w /\
  threads w !! 0 = Some (TRequest (bashRequest "/repo") None (RDone (true, None))) /\
  threads w !! 1 = Some (TDecision DGrantPersistent bashPermission DAppend) /\
  sessionPermissions (svc w) = [].
Proof.
  split; [|vm_compute; repeat split].
  exists "/repo", false, [], grantedBeforeCached. vm_compute. reflexivity.
Qed.

(** C5, as the code has it.  [GrantPersistent] delivers the decision
    first: its send fills the channel and leaves the Session Permission
    Cache as it is; the append is the operation after it; and from the
    append on, in particular once [GrantPersistent] has returned, the
    cache contains the record. *)
Theorem GrantPersistent_delivers_then_caches env w t p pc :
  reachable env w ->
  threads w !! t = Some (TDecision DGrantPersistent p pc) ->
  (forall ch o w', pc = DSend ch -> step env (Run t o) w = Some w' ->
     chans w' !! ch = Some (Some true) /\
     threads w' !! t = Some (TDecision DGrantPersistent p DAppend) /\
     sessionPermissions (svc w') = sessionPermissions (svc w)) /\
  (forall o, pc = DAppend ->
     exists w', step env (Run t o) w = Some w' /\
       threads w' !! t = Some (TDecision DGrantPersistent p DClear) /\
       sessionPermissions (svc w') = (sessionPermissions (svc w) ++ [p])%list) /\
  (pc = DClear \/ pc = DDone -> p ∈ sessionPermissions (svc w)).
Proof.
  intros Hr Hth. pose proof (lookup_lt_Some _ _ _ Hth) as Hlt.
  destruct (reachable_inv env w Hr) as (_ & _ & _ & Hc).
  split; [|split].
  - intros ch o w' -> Hs. simpl in Hs. rewrite Hth in Hs. simpl in Hs.
    destruct (chans w !! ch) as [[v|]|] eqn:Hch; simplify_eq. simpl.
    rewrite !list_lookup_insert_eq; [auto|exact Hlt|].
    eapply lookup_lt_Some. exact Hch.
  - intros o ->. eexists. split.
    + eapply step_Run_intro; [exact Hth|reflexivity].
    + simpl. rewrite list_lookup_insert_eq by exact Hlt. auto.
  - intros Hpc. eapply Hc; eassumption.
Qed.

(** Once [GrantPersistent] has returned, the record for [bash] in
    [/repo] is in the cache. *)
Lemma GrantPersistent_delivers_then_caches_witness :
  let w := after [] grantedAndCached in
  threads w !! 1 = Some (TDecision DGrantPersistent bashPermission DDone) /\
  bashPermission ∈ sessionPermissions (svc w).
Proof.
  split; [reflexivity|].
  assert (Hr : reachable exampleEnv (after [] grantedAndCached)).
  { exists "/repo", false, [], grantedAndCached. vm_compute. reflexivity. }
  apply (proj2 (proj2 (GrantPersistent_delivers_then_caches exampleEnv
                         (after [] grantedAndCached) 1 bashPermission DDone Hr eq_refl))).
  right. reflexivity.
Defined.

(** ** The fast paths *)

(** The two other fast paths publish the granted notification before
    they return. *)
Lemma autoApprove_hit_granted_notification env (w : world) t o opts ctx :
  threads w !! t = Some (TRequest opts ctx RStart) ->
  mode (svc w) = ModeRegular ->
  requestMu (svc w) = None ->
  allowlisted (svc w) opts = false ->
  autoApproved (svc w) opts = true ->
  exists w',
    run env (solo t o 7) w = Some w' /\
    threads w' = <[t := TRequest opts ctx (RDone (true, None))]> (threads w) /\
    Broker (svc w') = Broker (svc w) /\
    notificationBroker (svc w') =
      (notificationBroker (svc w)
         ++ [requestedNotification opts; grantedNotification opts])%list.
Proof.
  intros Hth Hm Hmu Hal Hau. eexists. split.
  - eapply run_solo; [exact Hth|]. simpl. rewrite Hm. simpl. rewrite Hmu. simpl.
    unfold allowlisted in Hal. rewrite Hal.
    unfold autoApproved in Hau. simpl. rewrite Hau. reflexivity.
  - simpl. unfold Publish. rewrite <- app_assoc. repeat split.
Qed.

Lemma cache_hit_granted_notification env (w : world) t o opts ctx p :
  threads w !! t = Some (TRequest opts ctx RStart) ->
  mode (svc w) = ModeRegular ->
  requestMu (svc w) = None ->
  allowlisted (svc w) opts = false ->
  autoApproved (svc w) opts = false ->
  uuid_New o ∉ issued w ->
  p ∈ sessionPermissions (svc w) ->
  samePermission p
    (newPermission (uuid_New o) (resolveDir env (workingDir (svc w)) (optsPath opts)) opts)
    = true ->
  exists w',
    run env (solo t o 9) w = Some w' /\
    threads w' = <[t := TRequest opts ctx (RDone (true, None))]> (threads w) /\
    Broker (svc w') = Broker (svc w) /\
    notificationBroker (svc w') =
      (notificationBroker (svc w)
         ++ [requestedNotification opts; grantedNotification opts])%list.
Proof.
  intros Hth Hm Hmu Hal Hau Hfresh Hin Hsame. eexists. split.
  - eapply run_solo; [exact Hth|]. simpl. rewrite Hm. simpl. rewrite Hmu. simpl.
    unfold allowlisted in Hal. rewrite Hal.
    unfold autoApproved in Hau. simpl. rewrite Hau. simpl.
    rewrite bool_decide_eq_false_2 by exact Hfresh. simpl.
    rewrite (cache_hit _ p); [reflexivity|exact Hin|exact Hsame].
  - simpl. unfold Publish. rewrite <- app_assoc. repeat split.
Qed.

(** C6 fails on the allowlist.  In Regular mode, with [requestMu]
    free, a request whose tool is on the allowlist (as [tool:action] or
    as [tool]) returns [(true, nil)] after five operations without a
    prompt, and the only notification it publishes is the requested one
    (neither [Granted] nor [Denied]): no granted notification. *)
Theorem allowlist_hit_without_granted_notification env (w : world) t o opts ctx :
  threads w !! t = Some (TRequest opts ctx RStart) ->
  mode (svc w) = ModeRegular ->
  requestMu (svc w) = None ->
  slices_Contains (allowedTools (svc w)) (optsToolName opts ++ ":" ++ optsAction opts) = true
  \/ slices_Contains (allowedTools (svc w)) (optsToolName opts) = true ->
  exists w',
    run env (solo t o 5) w = Some w' /\
    threads w' = <[t := TRequest opts ctx (RDone (true, None))]> (threads w) /\
    Broker (svc w') = Broker (svc w) /\
    notificationBroker (svc w') =
      (notificationBroker (svc w)
         ++ [{| notifToolCallID := optsToolCallID opts; Granted := false; Denied := false |}])%list.
Proof.
  intros Hth Hm Hmu Hal.
  assert (Hor : slices_Contains (allowedTools (svc w)) (optsToolName opts ++ ":" ++ optsAction opts)
                || slices_Contains (allowedTools (svc w)) (optsToolName opts) = true).
  { apply orb_true_iff. exact Hal. }
  eexists. split.
  - eapply run_solo; [exact Hth|]. simpl. rewrite Hm. simpl. rewrite Hmu. simpl.
    rewrite Hor. reflexivity.
  - simpl. repeat split.
Qed.

(** [bash] on the allowlist: the request returns [(true, nil)] and the
    notification stream holds the requested notification alone. *)
Lemma allowlist_hit_without_granted_notification_witness :
  let w := after ["bash"] allowlistedCall in
  exists w',
    run exampleEnv (solo 0 firstID 5) w = Some w' /\
    threads w' = [TRequest (bashRequest "/repo") None (RDone (true, None))] /\
    Broker (svc w') = [] /\
    notificationBroker (svc w') =
      [{| notifToolCallID := "tc1"; Granted := false; Denied := false |}].
Proof.
  apply (allowlist_hit_without_granted_notification exampleEnv
           (after ["bash"] allowlistedCall) 0 firstID (bashRequest "/repo") None);
    try reflexivity.
  right. reflexivity.
Defined.

(** ** Path resolution *)

(** C7, as stated, fails.  [os.Stat] fails on the empty path and on a
    relative path that does not exist; the prompt that is published
    carries the path as given, not the working directory [/repo]. *)
Lemma empty_path_is_not_workingDir :
  workingDir (svc (after [] (promptShownFor ""))) = "/repo" /\
  Path <$> Broker (svc (after [] (promptShownFor ""))) = [""] /\
  Path <$> Broker (svc (after [] (promptShownFor "docs/a.txt"))) = ["docs/a.txt"].
Proof. vm_compute. repeat split. Qed.

(** C7, as the code has it.  The request a call synthesizes takes the
    ID from [uuid.New] and copies the fields of the call; its path is
    the parent directory ([filepath.Dir]) when the given path names an
    existing file that is not a directory, and the given path itself
    otherwise, that is for an existing directory and for a path [os.Stat]
    fails on; when that result is ["."], the path is the working
    directory. *)
Theorem Request_path_resolution env (w : world) t o opts ctx :
  threads w !! t = Some (TRequest opts ctx RStat) ->
  uuid_New o ∉ issued w ->
  exists w' p,
    step env (Run t o) w = Some w' /\
    threads w' !! t = Some (TRequest opts ctx (RCache p)) /\
    ID p = uuid_New o /\
    (ToolName p, Action p, SessionID p, ToolCallID p) =
      (optsToolName opts, optsAction opts, optsSessionID opts, optsToolCallID opts) /\
    (os_Stat env (optsPath opts) = Some false ->
       filepath_Dir env (optsPath opts) <> "." ->
       Path p = filepath_Dir env (optsPath opts)) /\
    (os_Stat env (optsPath opts) = Some false ->
       filepath_Dir env (optsPath opts) = "." ->
       Path p = workingDir (svc w)) /\
    (os_Stat env (optsPath opts) <> Some false -> optsPath opts <> "." ->
       Path p = optsPath opts) /\
    (os_Stat env (optsPath opts) <> Some false -> optsPath opts = "." ->
       Path p = workingDir (svc w)).
Proof.
  intros Hth Hfresh. pose proof (lookup_lt_Some _ _ _ Hth) as Hlt.
  eexists. eexists. split.
  { eapply step_Run_intro; [exact Hth|]. simpl.
    rewrite bool_decide_eq_false_2 by exact Hfresh. reflexivity. }
  simpl. rewrite list_lookup_insert_eq by exact Hlt.
  split; [reflexivity|]. split; [reflexivity|]. split; [reflexivity|].
  unfold resolveDir.
  destruct (os_Stat env (optsPath opts)) as [[|]|] eqn:Hst; repeat split;
    intros H1 H2; try congruence;
    try (apply String.eqb_neq in H2; rewrite H2; reflexivity);
    try (apply String.eqb_eq in H2; rewrite H2; reflexivity).
Qed.

(** The file [/repo/main.go] resolves to its directory [/repo]. *)
Lemma Request_path_resolution_witness :
  let w := after [] (beforeStat "/repo/main.go") in
  exists w' p,
    step exampleEnv (Run 0 firstID) w = Some w' /\
    threads w' !! 0 = Some (TRequest (bashRequest "/repo/main.go") None (RCache p)) /\
    Path p = "/repo".
Proof.
  destruct (Request_path_resolution exampleEnv (after [] (beforeStat "/repo/main.go"))
              0 firstID (bashRequest "/repo/main.go") None)
    as (w' & p & Hs & Hth & _ & _ & Hfile & _).
  - reflexivity.
  - vm_compute. apply not_elem_of_nil.
  - exists w', p. split; [exact Hs|]. split; [exact Hth|].
    apply Hfile; [reflexivity|discriminate].
Defined.

(** ** Persistent grants *)


(** ** Cancellation *)

(** C9.  In a reachable world, a request that waits, whose context has
    ended with the error [e] and on whose channel no decision has been
    delivered, has its slot in the Pending Request Table; it returns
    [(false, e)] in three operations, of which the deferred [Del] removes
    the slot and the deferred unlock frees [requestMu]; and in every
    world later on the table has no slot for that ID, so that a decision
    call on it passes from its [Get] on without a send. *)
Theorem cancellation_cleans_up env (w : world) t o opts e p ch :
  reachable env w ->
  threads w !! t = Some (TRequest opts (Some e) (RWait p ch)) ->
  chans w !! ch = Some None ->
  pendingRequests (svc w) !! ID p = Some ch /\
  exists w',
    run env (solo t o 3) w = Some w' /\
    threads w' = <[t := TRequest opts (Some e) (RDone (false, Some e))]> (threads w) /\
    pendingRequests (svc w') = delete (ID p) (pendingRequests (svc w)) /\
    requestMu (svc w') = None /\
    forall sched w'', run env sched w' = Some w'' ->
      pendingRequests (svc w'') !! ID p = None /\
      forall t' d q o', ID q = ID p ->
        threads w'' !! t' = Some (TDecision d q DGet) ->
        step env (Run t' o') w'' =
          Some {| mem := w''; threads := <[t' := TDecision d q (afterSend d)]> (threads w'') |}.
Proof.
  intros Hr Hth Hch.
  destruct (reachable_inv env w Hr) as (_ & Hpd & (Ia & Ib) & _).
  pose proof (lookup_lt_Some _ _ _ Hth) as Hlt.
  split; [eapply Hpd; [exact Hth|reflexivity]|].
  eexists. split.
  { eapply run_solo; [exact Hth|]. simpl. rewrite Hch. reflexivity. }
  simpl. split; [reflexivity|]. split; [reflexivity|]. split; [reflexivity|].
  intros sched w'' Hrun.
  assert (Hret : retired (ID p) w'').
  { eapply retired_run; [|exact Hrun]. split; [|split]; simpl.
    - eapply Ia; [exact Hth|reflexivity].
    - intros t1 th1 q H1 Hq Heq.
      apply lookup_pool_insert in H1 as [[-> ->]|[Hne H1]]; [discriminate| |exact Hlt].
      apply Hne. eapply (Ib t1 t); [exact H1|exact Hth|exact Hq|reflexivity|exact Heq].
    - apply lookup_delete_eq. }
  destruct Hret as (_ & _ & Hnone). split; [exact Hnone|].
  intros t' d q o' Hid Hd. simpl. rewrite Hd. simpl. rewrite Hid, Hnone. reflexivity.
Qed.


(** The cancelled request for [bash] returns [(false, context.Canceled)]
    and its slot is gone for good. *)
Lemma cancellation_cleans_up_witness :
  let w := after [] cancelledWaiting in
  pendingRequests (svc w) !! "id-1" = Some 0 /\
  exists w',
    run exampleEnv (solo 0 firstID 3) w = Some w' /\
    threads w' = [TRequest (bashRequest "/repo") (Some ContextCanceled)
                    (RDone (false, Some ContextCanceled))] /\
    pendingRequests (svc w') = delete "id-1" (pendingRequests (svc w)) /\
    requestMu (svc w') = None /\
    forall sched w'', run exampleEnv sched w' = Some w'' ->
      pendingRequests (svc w'') !! "id-1" = None /\
      forall t' d q o', ID q = "id-1" ->
        threads w'' !! t' = Some (TDecision d q DGet) ->
        step exampleEnv (Run t' o') w'' =
          Some {| mem := w''; threads := <[t' := TDecision d q (afterSend d)]> (threads w'') |}.
Proof.
  assert (Hr : reachable exampleEnv (after [] cancelledWaiting)).
  { exists "/repo", false, [], cancelledWaiting. vm_compute. reflexivity. }
  apply (cancellation_cleans_up exampleEnv (after [] cancelledWaiting) 0 firstID
           (bashRequest "/repo") ContextCanceled bashPermission 0 Hr eq_refl eq_refl).
Defined.

(** * Further properties of the permission service *)

(** ** The holder of [requestMu] *)

Lemma holder_inv_step env a w w' :
  holder_inv w -> step env a w = Some w' -> holder_inv w'.
Proof.
  intros Inv H. action_cases H a.
  - intros t1 Hmu. simpl in *. destruct (Inv t1 Hmu) as (th1 & H1 & Hl).
    exists th1. split; [apply lookup_app_l_Some; exact H1|exact Hl].
  - pose proof (lookup_lt_Some _ _ _ Hth) as Hlt.
    intros t1 Hmu. simpl.
    destruct (decide (t1 = t)) as [->|Hne].
    + rewrite list_lookup_insert_eq by exact Hlt. eexists. split; [reflexivity|].
      assert (It : requestMu (svc w) = Some t -> holdsLock th = true).
      { intros Hw. destruct (Inv t Hw) as (th1 & Hth1 & Hl). congruence. }
      thread_cases Hs; simpl in *; try reflexivity; try discriminate;
        specialize (It Hmu); discriminate.
    + rewrite list_lookup_insert_ne by congruence.
      apply Inv. thread_cases Hs; simpl in *; try assumption; congruence.
  - pose proof (lookup_lt_Some _ _ _ Hth) as Hlt.
    intros t1 Hmu. simpl in *. destruct (Inv t1 Hmu) as (th1 & H1 & Hl).
    destruct (decide (t1 = t)) as [->|Hne].
    + rewrite list_lookup_insert_eq by exact Hlt. rewrite Hth in H1. simplify_eq.
      eexists. split; [reflexivity|exact Hl].
    + rewrite list_lookup_insert_ne by congruence. exists th1. split; assumption.
  - exact Inv.
  - destruct skip; exact Inv.
  - exact Inv.
Qed.

Lemma holder_inv_reachable env w : reachable env w -> holder_inv w.
Proof.
  intros (wd & skip & al & sched & H).
  eapply (run_invariant env holder_inv); [| |exact H].
  - intros a w0 w1. apply holder_inv_step.
  - intros t Hmu. discriminate.
Qed.

(** X1.  In every reachable world [requestMu] is held by thread [t]
    exactly when [t] is a call of [Request] between its lock and its
    deferred unlock; a call that has returned, by whichever path, does
    not hold it. *)
Theorem requestMu_held_by_running_request env w t :
  reachable env w ->
  (requestMu (svc w) = Some t <->
   exists th, threads w !! t = Some th /\ holdsLock th = true) /\
  (forall opts ctx r, threads w !! t = Some (TRequest opts ctx (RDone r)) ->
     requestMu (svc w) <> Some t).
Proof.
  intros Hr. pose proof (holder_inv_reachable env w Hr) as Hh.
  destruct (reachable_inv env w Hr) as (Mx & _).
  split; [split|].
  - apply Hh.
  - intros (th & Hth & Hl). eapply Mx; eassumption.
  - intros opts ctx r Hth Hmu. destruct (Hh t Hmu) as (th & Hth' & Hl).
    rewrite Hth in Hth'. simplify_eq.
Qed.

(** ** The slots of the Pending Request Table *)

Lemma ownsSlot_holdsLock id th : ownsSlot id th -> holdsLock th = true.
Proof. destruct th as [? ? []|]; simpl; intros H; try contradiction; reflexivity. Qed.

Lemma owner_inv_step env a w w' :
  owner_inv w -> step env a w = Some w' -> owner_inv w'.
Proof.
  intros Inv H. action_cases H a.
  - intros id ch Hp. simpl in *. destruct (Inv id ch Hp) as (t1 & th1 & H1 & Ho).
    exists t1, th1. split; [apply lookup_app_l_Some; exact H1|exact Ho].
  - pose proof (lookup_lt_Some _ _ _ Hth) as Hlt.
    assert (Hkeep : forall id ch,
              pendingRequests (svc w) !! id = Some ch ->
              (ownsSlot id th -> ownsSlot id th') ->
              exists t1 th1, <[t := th']> (threads w) !! t1 = Some th1 /\ ownsSlot id th1).
    { intros id ch Hp Hown. destruct (Inv id ch Hp) as (t1 & th1 & H1 & Ho).
      destruct (decide (t1 = t)) as [->|Hne].
      - exists t, th'. rewrite list_lookup_insert_eq by exact Hlt.
        split; [reflexivity|]. apply Hown. congruence.
      - exists t1, th1. rewrite list_lookup_insert_ne by congruence. split; assumption. }
    intros id ch Hp. simpl in *.
    thread_cases Hs; simpl in *;
      try (apply (Hkeep id ch); [exact Hp|simpl; tauto]; fail).
    + destruct (decide (ID permission = id)) as [<-|Hne].
      * exists t. eexists. rewrite list_lookup_insert_eq by exact Hlt.
        split; [reflexivity|reflexivity].
      * rewrite lookup_insert_ne in Hp by exact Hne.
        apply (Hkeep id ch); [exact Hp|]. simpl. tauto.
    + destruct (decide (ID permission = id)) as [<-|Hne].
      * rewrite lookup_delete_eq in Hp. discriminate.
      * rewrite lookup_delete_ne in Hp by exact Hne.
        apply (Hkeep id ch); [exact Hp|].
        simpl. intros Heq. contradiction.
  - pose proof (lookup_lt_Some _ _ _ Hth) as Hlt.
    intros id ch Hp. simpl in *. destruct (Inv id ch Hp) as (t1 & th1 & H1 & Ho).
    destruct (decide (t1 = t)) as [->|Hne].
    + rewrite Hth in H1. simplify_eq. exists t. eexists.
      rewrite list_lookup_insert_eq by exact Hlt. split; [reflexivity|exact Ho].
    + exists t1, th1. rewrite list_lookup_insert_ne by congruence. split; assumption.
  - exact Inv.
  - destruct skip; exact Inv.
  - exact Inv.
Qed.

Lemma owner_inv_reachable env w : reachable env w -> owner_inv w.
Proof.
  intros (wd & skip & al & sched & H).
  eapply (run_invariant env owner_inv); [| |exact H].
  - intros a w0 w1. apply owner_inv_step.
  - intros id ch Hp. simpl in Hp. rewrite lookup_empty in Hp. discriminate.
Qed.

(** X2.  In every reachable world the Pending Request Table holds at
    most one slot, and the slot it holds belongs to the call that holds
    [requestMu], which has registered it and not yet run its deferred
    [Del]. *)
Theorem pending_table_single_slot env w id ch :
  reachable env w ->
  pendingRequests (svc w) !! id = Some ch ->
  (exists t th, requestMu (svc w) = Some t /\ threads w !! t = Some th /\ ownsSlot id th) /\
  (forall id' ch', pendingRequests (svc w) !! id' = Some ch' -> id' = id).
Proof.
  intros Hr Hp. pose proof (owner_inv_reachable env w Hr) as Ho.
  destruct (reachable_inv env w Hr) as (Mx & _).
  destruct (Ho id ch Hp) as (t & th & Hth & Hown).
  pose proof (Mx t th Hth (ownsSlot_holdsLock id th Hown)) as Hmu.
  split; [exists t, th; auto|].
  intros id' ch' Hp'. destruct (Ho id' ch' Hp') as (t' & th' & Hth' & Hown').
  pose proof (Mx t' th' Hth' (ownsSlot_holdsLock id' th' Hown')) as Hmu'.
  assert (t' = t) by congruence. subst t'. rewrite Hth in Hth'. simplify_eq.
  destruct th' as [? ? []|]; simpl in *; try contradiction; congruence.
Qed.

(** ** Where the cache comes from *)

Lemma origin_inv_step env a w w' :
  origin_inv w -> step env a w = Some w' -> origin_inv w'.
Proof.
  intros [Inv Happ] H. action_cases H a.
  - split.
    + intros p Hp. simpl in *. destruct (Inv p Hp) as (g & pc & Hg & Hpc).
      exists g, pc. split; [apply lookup_app_l_Some; exact Hg|exact Hpc].
    + intros t1 d p H1. simpl in H1.
      apply lookup_pool_snoc in H1 as [[_ Heq]|H1]; [destruct c; discriminate|].
      eapply Happ; exact H1.
  - pose proof (lookup_lt_Some _ _ _ Hth) as Hlt. split.
    + assert (Hkeep : forall p,
                p ∈ sessionPermissions (svc w) ->
                (forall pc, th = TDecision DGrantPersistent p pc -> pc = DClear \/ pc = DDone ->
                   exists pc', th' = TDecision DGrantPersistent p pc' /\
                               (pc' = DClear \/ pc' = DDone)) ->
                exists g pc,
                  <[t := th']> (threads w) !! g = Some (TDecision DGrantPersistent p pc) /\
                  (pc = DClear \/ pc = DDone)).
      { intros p Hp Hown. destruct (Inv p Hp) as (g & pc & Hg & Hpc).
        destruct (decide (g = t)) as [->|Hne].
        - rewrite Hth in Hg. simplify_eq.
          destruct (Hown pc eq_refl Hpc) as (pc' & -> & Hpc').
          exists t, pc'. rewrite list_lookup_insert_eq by exact Hlt. auto.
        - exists g, pc. rewrite list_lookup_insert_ne by congruence. auto. }
      pose proof (Happ t) as Ht.
      intros p Hp. simpl in *.
      thread_cases Hs; simpl in *;
        try (apply Hkeep; [exact Hp|]; intros pc0 Heq Hpc0; simplify_eq;
             destruct Hpc0; simplify_eq; eauto; fail).
      rewrite (Ht _ _ Hth) in *.
      apply elem_of_app in Hp as [Hp|Hp].
      * apply Hkeep; [exact Hp|]. intros pc0 Heq Hpc0. simplify_eq.
        destruct Hpc0; discriminate.
      * apply list_elem_of_singleton in Hp as ->.
        exists t, DClear. rewrite list_lookup_insert_eq by exact Hlt. auto.
    + intros t1 d p H1. simpl in H1.
      apply lookup_pool_insert in H1 as [[-> Heq]|[Hne H1]]; [| |exact Hlt].
      * thread_cases Hs; simplify_eq;
          repeat match goal with x : decision |- _ => destruct x end;
          simpl in *; congruence.
      * eapply Happ; exact H1.
  - pose proof (lookup_lt_Some _ _ _ Hth) as Hlt. split.
    + intros p Hp. simpl in *. destruct (Inv p Hp) as (g & pc1 & Hg & Hpc).
      exists g, pc1. rewrite list_lookup_insert_ne; [auto|]. congruence.
    + intros t1 d p H1. simpl in H1.
      apply lookup_pool_insert in H1 as [[-> Heq]|[Hne H1]]; [discriminate| |exact Hlt].
      eapply Happ; exact H1.
  - split; assumption.
  - destruct skip; split; assumption.
  - split; assumption.
Qed.

(** X3.  In every reachable world the Session Permission Cache holds
    exactly the records that calls of [GrantPersistent] have appended:
    a record is in the cache if and only if some [GrantPersistent] on it
    is past its append.  [Grant], [Deny] and [Request] never add to the
    cache. *)
Theorem cache_holds_persistent_grants env w p :
  reachable env w ->
  (p ∈ sessionPermissions (svc w) <->
   exists g pc, threads w !! g = Some (TDecision DGrantPersistent p pc) /\
                (pc = DClear \/ pc = DDone)).
Proof.
  intros Hr. split.
  - destruct Hr as (wd & skip & al & sched & H).
    assert (Ho : origin_inv w).
    { eapply (run_invariant env origin_inv); [| |exact H].
      - intros a w0 w1. apply origin_inv_step.
      - split.
        + intros q Hq. simpl in Hq. inversion Hq.
        + intros t d q Hq. simpl in Hq. rewrite lookup_nil in Hq. discriminate. }
    apply Ho.
  - intros (g & pc & Hg & Hpc).
    destruct (reachable_inv env w Hr) as (_ & _ & _ & Hc). eapply Hc; eassumption.
Qed.

(** ** The IDs on the request stream *)

Lemma unpublished_carried th p : unpublished th = Some p -> carried th = Some p.
Proof. destruct th as [? ? []|]; simpl; congruence. Qed.

(** What an operation does to the request a call has still to publish. *)
Lemma unpublished_step env t o th (w : memory) th' m' q :
  thread_step env t o th w = Some (th', m') -> unpublished th' = Some q ->
  (unpublished th = Some q /\ Broker (svc m') = Broker (svc w)) \/
  (unpublished th = None /\ (ID q ∉ issued w) /\ Broker (svc m') = Broker (svc w)).
Proof.
  intros Hs Hq. thread_cases Hs; simpl in *; simplify_eq; auto.
  right. split; [reflexivity|]. split; [|reflexivity].
  match goal with H : bool_decide _ = false |- _ => apply bool_decide_eq_false in H; exact H end.
Qed.

Lemma published_inv_step env a w w' :
  ids_inv w -> published_inv w -> step env a w = Some w' -> published_inv w'.
Proof.
  intros [Ia Ib] (Hnd & Hiss & Hun) H.
  pose proof (issued_mono env a w w') as Hmono. specialize (fun id => Hmono id H).
  action_cases H a.
  - split; [exact Hnd|]. split; [exact Hiss|].
    intros t1 th1 p H1 Hp. simpl in *.
    apply lookup_pool_snoc in H1 as [[_ ->]|H1]; [destruct c; discriminate|].
    eapply Hun; eassumption.
  - pose proof (lookup_lt_Some _ _ _ Hth) as Hlt.
    destruct (decide (Broker (svc m1) = Broker (svc w))) as [Heq|Hne].
    + unfold published_inv. simpl. rewrite Heq. split; [exact Hnd|]. split.
      * intros id Hid. apply (Hmono id). apply Hiss. exact Hid.
      * intros t1 th1 p H1 Hp.
        apply lookup_pool_insert in H1 as [[-> ->]|[Hne1 H1]]; [| |exact Hlt].
        -- destruct (unpublished_step _ _ _ _ _ _ _ p Hs Hp) as [[Hk _]|(_ & Hfresh & _)].
           ++ eapply Hun; eassumption.
           ++ intros Hin. apply Hfresh. apply Hiss. exact Hin.
        -- eapply Hun; eassumption.
    + assert (Hpub : exists opts ctx p ch,
                th = TRequest opts ctx (RPublish p ch) /\
                th' = TRequest opts ctx (RWait p ch) /\
                Broker (svc m1) = (Broker (svc w) ++ [p])%list /\ issued m1 = issued w).
      { thread_cases Hs; simpl in Hne; try (exfalso; apply Hne; reflexivity).
        repeat eexists. }
      destruct Hpub as (opts & ctx & p & ch & -> & -> & Hb & Hi).
      pose proof (Hun t _ p Hth eq_refl) as Hp.
      unfold published_inv. simpl. rewrite Hb, fmap_app. simpl. split; [|split].
      * apply NoDup_app. split; [exact Hnd|]. split; [|apply NoDup_singleton].
        intros id Hid Hid'. apply list_elem_of_singleton in Hid'. subst id. contradiction.
      * intros id Hid. rewrite Hi. apply elem_of_app in Hid as [Hid|Hid].
        -- apply Hiss. exact Hid.
        -- apply list_elem_of_singleton in Hid. subst id.
           eapply Ia; [exact Hth|reflexivity].
      * intros t1 th1 q H1 Hq Hin.
        apply lookup_pool_insert in H1 as [[-> ->]|[Hne1 H1]]; [discriminate| |exact Hlt].
        apply elem_of_app in Hin as [Hin|Hin].
        -- eapply Hun; eassumption.
        -- apply list_elem_of_singleton in Hin. apply Hne1.
           eapply (Ib t1 t); [exact H1|exact Hth|apply unpublished_carried; exact Hq
                             |reflexivity|exact Hin].
  - pose proof (lookup_lt_Some _ _ _ Hth) as Hlt.
    split; [exact Hnd|]. split; [exact Hiss|].
    intros t1 th1 p H1 Hp. simpl in *.
    apply lookup_pool_insert in H1 as [[-> ->]|[Hne1 H1]]; [| |exact Hlt].
    + eapply (Hun t); [exact Hth|exact Hp].
    + eapply Hun; eassumption.
  - split; [exact Hnd|]. split; [exact Hiss|exact Hun].
  - destruct skip; (split; [exact Hnd|]; split; [exact Hiss|exact Hun]).
  - split; [exact Hnd|]. split; [exact Hiss|exact Hun].
Qed.

(** X4.  In every reachable world the prompts published on the request
    stream have pairwise distinct IDs: [Request] publishes the request it
    has synthesized once, under an ID taken from [uuid.New] that no
    prompt before it carries. *)
Theorem published_prompts_have_distinct_IDs env w :
  reachable env w ->
  NoDup (ID <$> Broker (svc w)) /\
  (forall i j p q, Broker (svc w) !! i = Some p -> Broker (svc w) !! j = Some q ->
     ID p = ID q -> i = j).
Proof.
  intros (wd & skip & al & sched & H).
  assert (Hinv : ids_inv (boot wd skip al) /\ published_inv (boot wd skip al)).
  { split; [apply service_inv_boot|]. split; [apply NoDup_nil_2|].
    split; [intros id Hid; inversion Hid|].
    intros t th p Ht. simpl in Ht. rewrite lookup_nil in Ht. discriminate. }
  assert (Hw : ids_inv w /\ published_inv w).
  { revert Hinv H. apply (run_invariant env (fun w => ids_inv w /\ published_inv w)).
    intros a w0 w1 [Hi Hp] Hs. split.
    - eapply ids_inv_step; eassumption.
    - eapply published_inv_step; eassumption. }
  destruct Hw as (_ & Hnd & _). split; [exact Hnd|].
  intros i j p q Hi Hj Heq.
  eapply (NoDup_lookup _ i j (ID p)); [exact Hnd| |].
  - rewrite list_lookup_fmap, Hi. reflexivity.
  - rewrite list_lookup_fmap, Hj. simpl. congruence.
Qed.

(** ** A decision resolves the waiting request *)

(** X5.  In a reachable world, let a request wait with its context
    alive and its channel empty, and let a [Grant], [GrantPersistent] or
    [Deny] be called on a record with its ID.  The decision call runs
    to its return without blocking, and the request then returns
    [(true, nil)] for the two grants and [(false, nil)] for [Deny]: a
    denial is not an error.  The call has published its notification and
    cleared the Active Request when its ID matches; only
    [GrantPersistent] has added to the cache; the request has removed
    its slot and freed [requestMu]. *)
Theorem decision_resolves_waiting_request env (w : world) t g o d p q opts ch :
  reachable env w ->
  threads w !! t = Some (TRequest opts None (RWait p ch)) ->
  chans w !! ch = Some None ->
  threads w !! g = Some (TDecision d q DNotify) ->
  ID q = ID p ->
  exists w',
    run env (solo g o (decisionSteps d) ++ solo t o 3)%list w = Some w' /\
    threads w' = <[t := TRequest opts None (RDone (decisionValue d, None))]>
                   (<[g := TDecision d q DDone]> (threads w)) /\
    notificationBroker (svc w') =
      Publish (notificationBroker (svc w)) (decisionNotification d q) /\
    Broker (svc w') = Broker (svc w) /\
    sessionPermissions (svc w') =
      match d with
      | DGrantPersistent => (sessionPermissions (svc w) ++ [q])%list
      | _ => sessionPermissions (svc w)
      end /\
    activeRequest (svc w') = clearActive q (activeRequest (svc w)) /\
    pendingRequests (svc w') = delete (ID p) (pendingRequests (svc w)) /\
    requestMu (svc w') = None.
Proof.
  intros Hr Hth Hch Hg Hid.
  destruct (reachable_inv env w Hr) as (_ & Hpd & _).
  pose proof (Hpd t _ p ch Hth eq_refl) as Hslot.
  pose proof (lookup_lt_Some _ _ _ Hch) as Hlt.
  assert (Hne : g <> t) by (intros ->; congruence).
  unfold clearActive.
  destruct (activeRequest (svc w)) as [a|] eqn:Ha;
    [destruct (String.eqb (ID a) (ID q)) eqn:E|];
    destruct d;
    (eexists; split;
     [ rewrite run_app;
       erewrite run_solo;
         [|exact Hg
          |simpl; rewrite Hid, Hslot; simpl; rewrite Hch; simpl; rewrite Ha;
           try rewrite E; reflexivity];
       erewrite run_solo;
         [reflexivity
         |simpl; rewrite list_lookup_insert_ne by exact Hne; exact Hth
         |simpl; rewrite list_lookup_insert_eq by exact Hlt; reflexivity]
     | simpl; repeat split; try assumption ]).
Qed.

(** ** The prompting path *)

(** X6.  A request that no mode and no fast path decides (Regular mode,
    [requestMu] free, tool not on the allowlist, session not flagged, no
    matching record in the cache) comes to its wait in ten operations:
    it has published the requested notification and then, under the
    lock, made the request it synthesized the Active Request, registered
    an empty channel for its ID and published the request on the request
    stream. *)
Theorem request_prompts_without_fast_path env (w : world) t o opts ctx :
  threads w !! t = Some (TRequest opts ctx RStart) ->
  mode (svc w) = ModeRegular ->
  requestMu (svc w) = None ->
  allowlisted (svc w) opts = false ->
  autoApproved (svc w) opts = false ->
  uuid_New o ∉ issued w ->
  (forall q, q ∈ sessionPermissions (svc w) ->
     samePermission q
       (newPermission (uuid_New o) (resolveDir env (workingDir (svc w)) (optsPath opts)) opts)
     = false) ->
  exists w',
    run env (solo t o 10) w = Some w' /\
    let permission :=
      newPermission (uuid_New o) (resolveDir env (workingDir (svc w)) (optsPath opts)) opts in
    let respCh := length (chans w) in
    threads w' = <[t := TRequest opts ctx (RWait permission respCh)]> (threads w) /\
    notificationBroker (svc w') =
      Publish (notificationBroker (svc w)) (requestedNotification opts) /\
    requestMu (svc w') = Some t /\
    activeRequest (svc w') = Some permission /\
    pendingRequests (svc w') = <[ID permission := respCh]> (pendingRequests (svc w)) /\
    chans w' = (chans w ++ [None])%list /\
    Broker (svc w') = Publish (Broker (svc w)) permission /\
    sessionPermissions (svc w') = sessionPermissions (svc w).
Proof.
  intros Hth Hm Hmu Hal Hau Hfresh Hmiss. eexists. split.
  - eapply run_solo; [exact Hth|]. simpl. rewrite Hm. simpl. rewrite Hmu. simpl.
    unfold allowlisted in Hal. rewrite Hal.
    unfold autoApproved in Hau. simpl. rewrite Hau. simpl.
    rewrite bool_decide_eq_false_2 by exact Hfresh. simpl.
    rewrite cache_miss by exact Hmiss. reflexivity.
  - simpl. repeat split.
Qed.

(** ** Cancellation hands the lock on *)

(** X7.  In a reachable world, let a request wait with its context
    ended and its channel empty while a second request is queued at
    [requestMu.Lock].  The second request cannot take the lock; once the
    first has returned [(false, err)] through its deferred [Del] and
    unlock, with no decision call at all, the second one takes the lock
    and, no fast path applying to it, publishes its prompt and waits. *)
Theorem cancellation_unblocks_queued_request env (w : world) t1 t2 o o2 opts e p ch opts2 ctx2 :
  reachable env w ->
  threads w !! t1 = Some (TRequest opts (Some e) (RWait p ch)) ->
  chans w !! ch = Some None ->
  threads w !! t2 = Some (TRequest opts2 ctx2 RLock) ->
  allowlisted (svc w) opts2 = false ->
  autoApproved (svc w) opts2 = false ->
  uuid_New o2 ∉ issued w ->
  (forall q, q ∈ sessionPermissions (svc w) ->
     samePermission q
       (newPermission (uuid_New o2) (resolveDir env (workingDir (svc w)) (optsPath opts2)) opts2)
     = false) ->
  step env (Run t2 o2) w = None /\
  exists w',
    run env (solo t1 o 3 ++ solo t2 o2 8)%list w = Some w' /\
    let permission :=
      newPermission (uuid_New o2) (resolveDir env (workingDir (svc w)) (optsPath opts2)) opts2 in
    threads w' = <[t2 := TRequest opts2 ctx2 (RWait permission (length (chans w)))]>
                   (<[t1 := TRequest opts (Some e) (RDone (false, Some e))]> (threads w)) /\
    Broker (svc w') = Publish (Broker (svc w)) permission /\
    requestMu (svc w') = Some t2 /\
    pendingRequests (svc w') =
      <[ID permission := length (chans w)]> (delete (ID p) (pendingRequests (svc w))) /\
    notificationBroker (svc w') = notificationBroker (svc w).
Proof.
  intros Hr H1 Hch H2 Hal Hau Hfresh Hmiss.
  destruct (reachable_inv env w Hr) as (Mx & _).
  pose proof (Mx t1 _ H1 eq_refl) as Hmu.
  assert (Hne : t1 <> t2) by (intros ->; congruence).
  split.
  { simpl. rewrite H2. simpl. rewrite Hmu. reflexivity. }
  eexists. split.
  - rewrite run_app.
    erewrite run_solo; [|exact H1|simpl; rewrite Hch; reflexivity].
    erewrite run_solo;
      [reflexivity
      |simpl; rewrite list_lookup_insert_ne by exact Hne; exact H2
      |].
    simpl. unfold allowlisted in Hal. rewrite Hal.
    unfold autoApproved in Hau. simpl. rewrite Hau. simpl.
    rewrite bool_decide_eq_false_2 by exact Hfresh. simpl.
    rewrite cache_miss by exact Hmiss. reflexivity.
  - simpl. repeat split.
Qed.

(** ** Auto-approved sessions *)

Lemma autoApprove_step env a w w' S :
  step env a w = Some w' ->
  autoApproveSessions (svc w) !! S = Some true ->
  autoApproveSessions (svc w') !! S = Some true.
Proof.
  intros H Hs. action_cases H a; simpl; try assumption.
  - thread_cases Hs0; simpl; assumption.
  - destruct skip; assumption.
  - destruct (decide (sid = S)) as [->|Hne].
    + apply lookup_insert_eq.
    + rewrite lookup_insert_ne by exact Hne. exact Hs.
Qed.

(** X8.  [AutoApproveSession] is idempotent, and its flag is never
    taken back: in every world after a call of it for session [S], a
    Regular-mode request of session [S] that finds [requestMu] free
    returns [(true, nil)] without publishing a prompt. *)
Theorem auto_approved_session_is_not_prompted env (w w' : world) sched S t o opts ctx :
  run env (AAutoApproveSession S :: sched) w = Some w' ->
  threads w' !! t = Some (TRequest opts ctx RStart) ->
  optsSessionID opts = S ->
  mode (svc w') = ModeRegular ->
  requestMu (svc w') = None ->
  AutoApproveSession S (AutoApproveSession S (svc w)) = AutoApproveSession S (svc w) /\
  autoApproveSessions (svc w') !! S = Some true /\
  exists n w'',
    run env (solo t o n) w' = Some w'' /\
    threads w'' = <[t := TRequest opts ctx (RDone (true, None))]> (threads w') /\
    Broker (svc w'') = Broker (svc w').
Proof.
  intros Hrun Hth HS Hm Hmu.
  assert (Hflag : autoApproveSessions (svc w') !! S = Some true).
  { simpl in Hrun. revert Hrun.
    apply (run_invariant env (fun w => autoApproveSessions (svc w) !! S = Some true)).
    - intros a w0 w1 H0 Hs. eapply autoApprove_step; eassumption.
    - simpl. apply lookup_insert_eq. }
  split; [|split; [exact Hflag|]].
  { unfold AutoApproveSession. simpl. rewrite insert_insert_eq. reflexivity. }
  destruct (allowlisted (svc w') opts) eqn:Hal.
  - exists 5. eexists. split.
    + eapply run_solo; [exact Hth|]. simpl. rewrite Hm. simpl. rewrite Hmu. simpl.
      unfold allowlisted in Hal. rewrite Hal. reflexivity.
    + simpl. split; reflexivity.
  - exists 7. eexists. split.
    + eapply run_solo; [exact Hth|]. simpl. rewrite Hm. simpl. rewrite Hmu. simpl.
      unfold allowlisted in Hal. rewrite Hal. simpl. rewrite HS, Hflag. reflexivity.
    + simpl. split; reflexivity.
Qed.

(** ** The mode is read at the gate only *)

Lemma thread_step_SetMode env t o th (w : memory) m :
  pastGate th = true ->
  thread_step env t o th (set_svc (SetMode m (svc w)) w) =
  (fun r => (r.1, set_svc (SetMode m (svc r.2)) r.2)) <$> thread_step env t o th w.
Proof.
  intros Hp. destruct th as [opts ctx []|d p []]; simpl in *; try discriminate;
    repeat case_match; simplify_eq; try reflexivity.
Qed.

Lemma thread_step_pastGate env t o th (w : memory) th' m' :
  thread_step env t o th w = Some (th', m') -> pastGate th' = true.
Proof. intros Hs. thread_cases Hs; reflexivity. Qed.

Lemma thread_steps_SetMode env t o m n : forall th (w : memory),
  pastGate th = true ->
  thread_steps env t o n th (set_svc (SetMode m (svc w)) w) =
  (fun r => (r.1, set_svc (SetMode m (svc r.2)) r.2)) <$> thread_steps env t o n th w.
Proof.
  induction n as [|n IH]; intros th w Hp; simpl; [reflexivity|].
  rewrite thread_step_SetMode by exact Hp.
  destruct (thread_step env t o th w) as [[th1 m1]|] eqn:E; simpl; [|reflexivity].
  apply IH. eapply thread_step_pastGate. exact E.
Qed.

Lemma run_solo_eq env t o n (w : world) th :
  threads w !! t = Some th ->
  run env (solo t o n) w =
  (fun r => {| mem := r.2; threads := <[t := r.1]> (threads w) |})
    <$> thread_steps env t o n th w.
Proof.
  revert w th. induction n as [|n IH]; intros w th Hth; simpl.
  - rewrite list_insert_id by exact Hth. destruct w; reflexivity.
  - rewrite Hth. destruct (thread_step env t o th w) as [[th1 m1]|] eqn:E; [|reflexivity].
    pose proof (lookup_lt_Some _ _ _ Hth) as Hlt.
    rewrite (IH {| mem := m1; threads := <[t := th1]> (threads w) |} th1).
    + simpl. destruct (thread_steps env t o n th1 m1) as [[th2 m2]|]; simpl; [|reflexivity].
      rewrite list_insert_insert_eq. reflexivity.
    + simpl. apply list_lookup_insert_eq. exact Hlt.
Qed.

(** X9.  A change of mode takes effect only for the calls that have not
    yet read the mode: for a call past its gate, [SetMode] before its
    next operation and [SetMode] after it lead to the same world.  A
    request that waits for a decision is not affected by a change of
    mode. *)
Theorem SetMode_commutes_past_the_gate env (w : world) t o th m :
  threads w !! t = Some th ->
  pastGate th = true ->
  run env [ASetMode m; Run t o] w = run env [Run t o; ASetMode m] w.
Proof.
  intros Hth Hp. simpl. rewrite Hth.
  rewrite thread_step_SetMode by exact Hp.
  destruct (thread_step env t o th w) as [[th1 m1]|]; reflexivity.
Qed.

Lemma planAllows_gate opts :
  planAllows opts ->
  isWriteOperation (optsAction opts) && negb (isReadOnlyTool (optsToolName opts)) = false.
Proof.
  intros [[Hw He]|Ht].
  - apply andb_false_iff. left. apply not_true_is_false. intros H.
    apply slices_Contains_elem in H.
    apply elem_of_cons in H as [H|H]; [congruence|].
    apply list_elem_of_singleton in H. congruence.
  - apply andb_false_iff. right. rewrite Ht. reflexivity.
Qed.

(** X10.  In Plan mode a request whose action is neither [write] nor
    [execute], or whose tool is the exempted read-only tool, is handled
    as in Regular mode: run for any number of operations, it does, and
    blocks, exactly as it would in the same world in Regular mode. *)
Theorem plan_mode_lets_reads_through env (w : world) t o opts ctx n :
  threads w !! t = Some (TRequest opts ctx RStart) ->
  mode (svc w) = ModePlan ->
  planAllows opts ->
  run env (solo t o n) w =
  withMode ModePlan <$> run env (solo t o n) (withMode ModeRegular w).
Proof.
  intros Hth Hm Hallow.
  rewrite (run_solo_eq env t o n w _ Hth).
  rewrite (run_solo_eq env t o n (withMode ModeRegular w) (TRequest opts ctx RStart))
    by exact Hth.
  destruct n as [|n]; simpl.
  - destruct w as [[s c i] ths]. destruct s. simpl in *. subst. reflexivity.
  - assert (Hw : mem w = set_svc (SetMode ModePlan (svc (withMode ModeRegular w)))
                           (withMode ModeRegular w)).
    { destruct w as [[s c i] ths]. destruct s. simpl in *. subst. reflexivity. }
    rewrite Hm, (planAllows_gate opts Hallow).
    rewrite Hw at 1. rewrite thread_steps_SetMode by reflexivity.
    destruct (thread_steps env t o n (TRequest opts ctx RNotify) _) as [[th1 m1]|];
      reflexivity.
Qed.

(** ** The further properties on the examples *)

(** While the first request waits it holds [requestMu]. *)
Lemma requestMu_held_by_running_request_witness :
  let w := after [] secondQueued in
  requestMu (svc w) = Some 0 /\
  (requestMu (svc w) = Some 0 <->
   exists th, threads w !! 0 = Some th /\ holdsLock th = true).
Proof.
  assert (Hr : reachable exampleEnv (after [] secondQueued)).
  { exists "/repo", false, [], secondQueued. vm_compute. reflexivity. }
  split; [reflexivity|].
  apply (proj1 (requestMu_held_by_running_request exampleEnv (after [] secondQueued) 0 Hr)).
Defined.

(** The slot of the prompt for [bash] is the only one. *)
Lemma pending_table_single_slot_witness :
  let w := after [] promptShown in
  pendingRequests (svc w) !! "id-1" = Some 0 /\
  forall id' ch', pendingRequests (svc w) !! id' = Some ch' -> id' = "id-1".
Proof.
  assert (Hr : reachable exampleEnv (after [] promptShown)).
  { exists "/repo", false, [], promptShown. vm_compute. reflexivity. }
  split; [reflexivity|].
  apply (proj2 (pending_table_single_slot exampleEnv (after [] promptShown) "id-1" 0
                  Hr eq_refl)).
Defined.

(** The record in the cache is the one [GrantPersistent] was called
    with. *)
Lemma cache_holds_persistent_grants_witness :
  let w := after [] grantedAndCached in
  sessionPermissions (svc w) = [bashPermission] /\
  exists g pc, threads w !! g = Some (TDecision DGrantPersistent bashPermission pc) /\
               (pc = DClear \/ pc = DDone).
Proof.
  assert (Hr : reachable exampleEnv (after [] grantedAndCached)).
  { exists "/repo", false, [], grantedAndCached. vm_compute. reflexivity. }
  split; [reflexivity|].
  apply (proj1 (cache_holds_persistent_grants exampleEnv (after [] grantedAndCached)
                  bashPermission Hr)).
  vm_compute. apply list_elem_of_here.
Defined.

(** Two prompts have been published, under the IDs [id-1] and [id-2]. *)
Lemma published_prompts_have_distinct_IDs_witness :
  let w := after [] twoPrompts in
  ID <$> Broker (svc w) = ["id-1"; "id-2"] /\
  NoDup (ID <$> Broker (svc w)).
Proof.
  assert (Hr : reachable exampleEnv (after [] twoPrompts)).
  { exists "/repo", false, [], twoPrompts. vm_compute. reflexivity. }
  split; [reflexivity|].
  apply (proj1 (published_prompts_have_distinct_IDs exampleEnv (after [] twoPrompts) Hr)).
Defined.

(** [Deny] on the prompt for [bash]: the request returns [(false, nil)]
    and nothing is cached. *)
Lemma decision_resolves_waiting_request_witness :
  let w := after [] denyCalled in
  exists w',
    run exampleEnv (solo 1 firstID 4 ++ solo 0 firstID 3)%list w = Some w' /\
    threads w' = [TRequest (bashRequest "/repo") None (RDone (false, None));
                  TDecision DDeny bashPermission DDone] /\
    notificationBroker (svc w') =
      [{| notifToolCallID := "tc1"; Granted := false; Denied := false |};
       {| notifToolCallID := "tc1"; Granted := false; Denied := true |}] /\
    sessionPermissions (svc w') = [] /\
    activeRequest (svc w') = None /\
    requestMu (svc w') = None.
Proof.
  assert (Hr : reachable exampleEnv (after [] denyCalled)).
  { exists "/repo", false, [], denyCalled. vm_compute. reflexivity. }
  destruct (decision_resolves_waiting_request exampleEnv (after [] denyCalled) 0 1 firstID
              DDeny bashPermission bashPermission (bashRequest "/repo") 0
              Hr eq_refl eq_refl eq_refl eq_refl)
    as (w' & Hrun & Hth & Hn & _ & Hc & Ha & _ & Hmu).
  exists w'. split; [exact Hrun|]. split; [exact Hth|]. split; [exact Hn|].
  split; [exact Hc|]. split; [exact Ha|exact Hmu].
Defined.

(** The scenario of a request for [bash] in [/repo] under Regular mode
    with empty allowlist and empty cache. *)
Lemma request_prompts_without_fast_path_witness :
  let w := after [] [Call (CallRequest (bashRequest "/repo"))] in
  exists w',
    run exampleEnv (solo 0 firstID 10) w = Some w' /\
    threads w' = [TRequest (bashRequest "/repo") None (RWait bashPermission 0)] /\
    Broker (svc w') = [bashPermission] /\
    activeRequest (svc w') = Some bashPermission /\
    pendingRequests (svc w') !! "id-1" = Some 0.
Proof.
  destruct (request_prompts_without_fast_path exampleEnv
              (after [] [Call (CallRequest (bashRequest "/repo"))]) 0 firstID
              (bashRequest "/repo") None)
    as (w' & Hrun & Hth & _ & _ & Ha & Hp & _ & Hb & _).
  - reflexivity.
  - reflexivity.
  - reflexivity.
  - reflexivity.
  - reflexivity.
  - vm_compute. apply not_elem_of_nil.
  - intros q Hq. vm_compute in Hq. inversion Hq.
  - exists w'. split; [exact Hrun|]. split; [exact Hth|]. split; [exact Hb|].
    split; [exact Ha|]. rewrite Hp. reflexivity.
Defined.

(** The first request is cancelled; the queued request for
    [/repo/main.go] then publishes its prompt. *)
Lemma cancellation_unblocks_queued_request_witness :
  let w := after [] cancelledWithQueue in
  step exampleEnv (Run 1 secondID) w = None /\
  exists w',
    run exampleEnv (solo 0 firstID 3 ++ solo 1 secondID 8)%list w = Some w' /\
    Broker (svc w') =
      [bashPermission; newPermission "id-2" "/repo" (bashRequest "/repo/main.go")] /\
    requestMu (svc w') = Some 1.
Proof.
  assert (Hr : reachable exampleEnv (after [] cancelledWithQueue)).
  { exists "/repo", false, [], cancelledWithQueue. vm_compute. reflexivity. }
  destruct (cancellation_unblocks_queued_request exampleEnv (after [] cancelledWithQueue)
              0 1 firstID secondID (bashRequest "/repo") ContextCanceled bashPermission 0
              (bashRequest "/repo/main.go") None Hr eq_refl eq_refl eq_refl eq_refl eq_refl)
    as (Hblocked & w' & Hrun & _ & Hb & Hmu & _).
  - vm_compute. intros H. apply list_elem_of_singleton in H. discriminate.
  - intros q Hq. vm_compute in Hq. inversion Hq.
  - split; [exact Hblocked|]. exists w'. split; [exact Hrun|]. split; [exact Hb|exact Hmu].
Defined.

(** Session [s1] is flagged before the request for [bash] arrives. *)
Lemma auto_approved_session_is_not_prompted_witness :
  let w := after [] [AAutoApproveSession "s1"; Call (CallRequest (bashRequest "/repo"))] in
  autoApproveSessions (svc w) !! "s1" = Some true /\
  exists n w'',
    run exampleEnv (solo 0 firstID n) w = Some w'' /\
    threads w'' = [TRequest (bashRequest "/repo") None (RDone (true, None))] /\
    Broker (svc w'') = [].
Proof.
  apply (proj2 (auto_approved_session_is_not_prompted exampleEnv (boot "/repo" false [])
                  (after [] [AAutoApproveSession "s1"; Call (CallRequest (bashRequest "/repo"))])
                  [Call (CallRequest (bashRequest "/repo"))] "s1" 0 firstID
                  (bashRequest "/repo") None eq_refl eq_refl eq_refl eq_refl eq_refl)).
Defined.

(** The mode changes to Plan while the request for [bash] waits. *)
Lemma SetMode_commutes_past_the_gate_witness :
  let w := after [] (promptShown ++ [Call (CallGrant bashPermission)] ++ solo 1 firstID 3) in
  run exampleEnv [ASetMode ModePlan; Run 0 firstID] w =
  run exampleEnv [Run 0 firstID; ASetMode ModePlan] w /\
  is_Some (run exampleEnv [ASetMode ModePlan; Run 0 firstID] w).
Proof.
  split.
  - apply (SetMode_commutes_past_the_gate exampleEnv _ 0 firstID
             (TRequest (bashRequest "/repo") None (RWait bashPermission 0)) ModePlan);
      reflexivity.
  - vm_compute. eexists. reflexivity.
Defined.

(** In Plan mode the request to read [/repo/main.go] is prompted. *)
Lemma plan_mode_lets_reads_through_witness :
  let w := after [] planModeRead in
  run exampleEnv (solo 0 firstID 10) w =
  withMode ModePlan <$> run exampleEnv (solo 0 firstID 10) (withMode ModeRegular w) /\
  exists w', run exampleEnv (solo 0 firstID 10) w = Some w' /\
             Path <$> Broker (svc w') = ["/repo"].
Proof.
  split.
  - apply (plan_mode_lets_reads_through exampleEnv (after [] planModeRead) 0 firstID
             viewRequest None 10); [reflexivity|reflexivity|].
    left. split; discriminate.
  - vm_compute. eexists. split; reflexivity.
Defined.

(** * Properties of the tool names for OAuth *)

Lemma claudeCodeToolNames_entries :
  map_to_list claudeCodeToolNames =
  [("write", "Write"); ("grep", "Grep"); ("glob", "Glob"); ("edit", "Edit");
   ("view", "View"); ("read", "Read"); ("bash", "Bash")].
Proof. vm_compute. reflexivity. Qed.

Lemma claudeCodeToolNames_cases k v :
  claudeCodeToolNames !! k = Some v ->
  (k, v) ∈ [("write", "Write"); ("grep", "Grep"); ("glob", "Glob"); ("edit", "Edit");
            ("view", "View"); ("read", "Read"); ("bash", "Bash")].
Proof.
  intros H. rewrite <- claudeCodeToolNames_entries. apply elem_of_map_to_list. exact H.
Qed.

Lemma asciiToLower_lowers : lowersToolNames asciiToLower.
Proof.
  intros k v H. apply claudeCodeToolNames_cases in H.
  repeat (apply elem_of_cons in H as [H|H]; [simplify_eq; split; reflexivity|]).
  inversion H.
Qed.

(** The pairs the loop of [reverseToolNames] inserts. *)
Lemma reversed_entries ToLower :
  lowersToolNames ToLower ->
  (fun kv : string * string => (ToLower kv.2, kv.1)) <$> map_to_list claudeCodeToolNames =
  [("write", "write"); ("grep", "grep"); ("glob", "glob"); ("edit", "edit");
   ("view", "view"); ("read", "read"); ("bash", "bash")].
Proof.
  intros H. rewrite claudeCodeToolNames_entries. simpl.
  rewrite (proj1 (H "write" "Write" ltac:(vm_compute; reflexivity))).
  rewrite (proj1 (H "grep" "Grep" ltac:(vm_compute; reflexivity))).
  rewrite (proj1 (H "glob" "Glob" ltac:(vm_compute; reflexivity))).
  rewrite (proj1 (H "edit" "Edit" ltac:(vm_compute; reflexivity))).
  rewrite (proj1 (H "view" "View" ltac:(vm_compute; reflexivity))).
  rewrite (proj1 (H "read" "Read" ltac:(vm_compute; reflexivity))).
  rewrite (proj1 (H "bash" "Bash" ltac:(vm_compute; reflexivity))).
  reflexivity.
Qed.

Lemma reverseFrom_list_to_map ToLower entries :
  reverseFrom ToLower entries =
  list_to_map (reverse ((fun kv : string * string => (ToLower kv.2, kv.1)) <$> entries)).
Proof.
  induction entries as [|kv entries IH] using rev_ind; [reflexivity|].
  unfold reverseFrom in *. rewrite foldl_snoc, IH.
  rewrite fmap_app, reverse_app. reflexivity.
Qed.

Lemma reverseToolNames_lookup ToLower x :
  lowersToolNames ToLower ->
  reverseToolNames ToLower !! x =
  match claudeCodeToolNames !! x with Some _ => Some x | None => None end.
Proof.
  intros H. unfold reverseToolNames.
  rewrite reverseFrom_list_to_map, (reversed_entries ToLower H).
  transitivity (map_imap (fun k (_ : string) => Some k) claudeCodeToolNames !! x).
  - f_equal; try (vm_compute; reflexivity).
  - rewrite map_lookup_imap. destruct (claudeCodeToolNames !! x); reflexivity.
Qed.

(** X11.  The reverse table does not depend on the order in which the
    [range] over [claudeCodeToolNames] yields the entries: every order
    builds the same [reverseToolNames], which takes each lowercase name
    of the table to itself. *)
Theorem reverseToolNames_any_iteration_order ToLower entries :
  lowersToolNames ToLower ->
  entries ≡ₚ map_to_list claudeCodeToolNames ->
  reverseFrom ToLower entries = reverseToolNames ToLower /\
  forall k, reverseFrom ToLower entries !! k =
            match claudeCodeToolNames !! k with Some _ => Some k | None => None end.
Proof.
  intros H Hperm.
  assert (Heq : reverseFrom ToLower entries = reverseToolNames ToLower).
  { unfold reverseToolNames. rewrite !reverseFrom_list_to_map.
    apply list_to_map_proper.
    - rewrite reverse_Permutation, Hperm, (reversed_entries ToLower H).
      apply (bool_decide_unpack _). vm_compute. exact I.
    - rewrite !reverse_Permutation, Hperm. reflexivity. }
  split; [exact Heq|].
  intros k. rewrite Heq. apply reverseToolNames_lookup. exact H.
Qed.

(** X12.  Converting a name to its Claude Code style and back gives the
    lowercase name when the name is, up to case, one of the table, and
    the name itself otherwise; in particular the seven names of the table
    survive the round trip. *)
Theorem tool_name_round_trip ToLower name :
  lowersToolNames ToLower ->
  FromClaudeCodeName ToLower (ToClaudeCodeName ToLower name) =
    match claudeCodeToolNames !! ToLower name with
    | Some _ => ToLower name
    | None => name
    end /\
  (is_Some (claudeCodeToolNames !! name) ->
   FromClaudeCodeName ToLower (ToClaudeCodeName ToLower name) = name).
Proof.
  intros H.
  assert (Hmain : FromClaudeCodeName ToLower (ToClaudeCodeName ToLower name) =
                  match claudeCodeToolNames !! ToLower name with
                  | Some _ => ToLower name
                  | None => name
                  end).
  { unfold FromClaudeCodeName, ToClaudeCodeName.
    destruct (claudeCodeToolNames !! ToLower name) as [cc|] eqn:E.
    - destruct (H _ _ E) as [Hcc Hk].
      rewrite (reverseToolNames_lookup ToLower _ H), Hcc, E. reflexivity.
    - rewrite (reverseToolNames_lookup ToLower _ H), E. reflexivity. }
  split; [exact Hmain|].
  intros [v Hv]. rewrite Hmain. destruct (H _ _ Hv) as [_ Hk].
  rewrite Hk, Hv. reflexivity.
Qed.

Lemma ToClaudeCodeName_not_blocked ToLower name :
  lowersToolNames ToLower ->
  claudeCodeToolNames !! ToClaudeCodeName ToLower name = None.
Proof.
  intros H.
  destruct (claudeCodeToolNames !! ToLower name) as [cc|] eqn:E.
  - assert (Hto : ToClaudeCodeName ToLower name = cc)
      by (unfold ToClaudeCodeName; rewrite E; reflexivity).
    rewrite Hto. apply claudeCodeToolNames_cases in E.
    repeat (apply elem_of_cons in E as [E|E];
            [injection E as _ ->; vm_compute; reflexivity|]).
    inversion E.
  - assert (Hto : ToClaudeCodeName ToLower name = name)
      by (unfold ToClaudeCodeName; rewrite E; reflexivity).
    rewrite Hto.
    destruct (claudeCodeToolNames !! name) as [v|] eqn:E'; [|reflexivity].
    destruct (H _ _ E') as [_ Hk]. rewrite Hk in E. congruence.
Qed.

Lemma ToClaudeCodeName_idempotent ToLower name :
  lowersToolNames ToLower ->
  ToClaudeCodeName ToLower (ToClaudeCodeName ToLower name) = ToClaudeCodeName ToLower name.
Proof.
  intros H. unfold ToClaudeCodeName at 2 3.
  destruct (claudeCodeToolNames !! ToLower name) as [cc|] eqn:E.
  - unfold ToClaudeCodeName. destruct (H _ _ E) as [Hcc _]. rewrite Hcc, E. reflexivity.
  - unfold ToClaudeCodeName. rewrite E. reflexivity.
Qed.

(** X13.  A converted name is never one of the lowercase names of the
    table, and converting is idempotent. *)
Theorem converted_name_is_not_blocked ToLower name :
  lowersToolNames ToLower ->
  claudeCodeToolNames !! ToClaudeCodeName ToLower name = None /\
  ToClaudeCodeName ToLower (ToClaudeCodeName ToLower name) = ToClaudeCodeName ToLower name.
Proof.
  intros H. split.
  - apply ToClaudeCodeName_not_blocked. exact H.
  - apply ToClaudeCodeName_idempotent. exact H.
Qed.

Lemma Wrap_one ToLower tool :
  let wrapped :=
    if negb (String.eqb (ToClaudeCodeName ToLower (Name (Info tool))) (Name (Info tool)))
    then oauthToolWrapper tool (ToClaudeCodeName ToLower (Name (Info tool)))
    else tool in
  Name (Info wrapped) = ToClaudeCodeName ToLower (Name (Info tool)) /\
  ToolDescription (Info wrapped) = ToolDescription (Info tool) /\
  Parameters (Info wrapped) = Parameters (Info tool) /\
  (ToClaudeCodeName ToLower (Name (Info tool)) = Name (Info tool) -> wrapped = tool).
Proof.
  simpl. destruct (String.eqb _ _) eqn:E; simpl.
  - apply String.eqb_eq in E. auto.
  - apply String.eqb_neq in E. repeat split. intros. contradiction.
Qed.

(** X14.  [WrapToolsForOAuth] returns as many tools as it is given, in
    the same order; each returned tool reports the converted name, which
    is never a lowercase name of the table, and the description and the
    parameters of the tool it stands for; a tool whose name needs no
    conversion is returned as it is; and wrapping a second time changes
    nothing. *)
Theorem WrapToolsForOAuth_renames ToLower tools :
  lowersToolNames ToLower ->
  length (WrapToolsForOAuth ToLower tools) = length tools /\
  (forall i tool, tools !! i = Some tool ->
     exists wrapped,
       WrapToolsForOAuth ToLower tools !! i = Some wrapped /\
       Name (Info wrapped) = ToClaudeCodeName ToLower (Name (Info tool)) /\
       claudeCodeToolNames !! Name (Info wrapped) = None /\
       ToolDescription (Info wrapped) = ToolDescription (Info tool) /\
       Parameters (Info wrapped) = Parameters (Info tool) /\
       (ToClaudeCodeName ToLower (Name (Info tool)) = Name (Info tool) -> wrapped = tool)) /\
  WrapToolsForOAuth ToLower (WrapToolsForOAuth ToLower tools) =
    WrapToolsForOAuth ToLower tools.
Proof.
  intros H. split; [apply length_fmap|]. split.
  - intros i tool Hi. unfold WrapToolsForOAuth. rewrite list_lookup_fmap, Hi. simpl.
    eexists. split; [reflexivity|].
    destruct (Wrap_one ToLower tool) as (Hn & Hd & Hp & Hsame).
    split; [exact Hn|]. split; [|auto].
    rewrite Hn. apply ToClaudeCodeName_not_blocked. exact H.
  - unfold WrapToolsForOAuth. rewrite <- list_fmap_compose.
    apply list_fmap_ext. intros i tool _. simpl.
    destruct (Wrap_one ToLower tool) as (Hn & _).
    simpl in Hn. rewrite Hn.
    rewrite (ToClaudeCodeName_idempotent ToLower (Name (Info tool)) H).
    rewrite String.eqb_refl. reflexivity.
Qed.

(** * Properties of the OAuth flow of Anthropic *)

Lemma list_ind3 {A} (P : list A -> Prop) :
  P [] -> (forall a, P [a]) -> (forall a b, P [a; b]) ->
  (forall a b c l, P l -> P (a :: b :: c :: l)) ->
  forall l, P l.
Proof.
  intros H0 H1 H2 H3 l.
  assert (H : P l /\ (forall a, P (a :: l)) /\ (forall a b, P (a :: b :: l))).
  { induction l as [|x l (IH0 & IH1 & IH2)]; [auto|].
    split; [apply IH1|]. split; [intros a; apply IH2|]. intros a b. apply H3. exact IH0. }
  apply H.
Qed.

Lemma length_string_of_list_ascii l :
  String.length (String.string_of_list_ascii l) = length l.
Proof. induction l as [|c l IH]; simpl; [reflexivity|]. rewrite IH. reflexivity. Qed.

Lemma base64_Encode_length src :
  length (base64_Encode src) = (4 * length src + 2) / 3.
Proof.
  induction src as [|a|a b|a b c l IH] using list_ind3; try reflexivity.
  cbn [base64_Encode length]. rewrite IH.
  replace (4 * S (S (S (length l))) + 2) with (4 * 3 + (4 * length l + 2)) by lia.
  rewrite Nat.div_add_l by lia. reflexivity.
Qed.

Lemma encodeURL_safe : Forall (fun c => shouldEscape c = false) encodeURL.
Proof. apply (bool_decide_unpack _). vm_compute. exact I. Qed.

Lemma encodeByte_safe x : shouldEscape (encodeByte (N.land x 63)) = false.
Proof.
  unfold encodeByte.
  assert (Hlt : N.to_nat (N.land x 63) < length encodeURL).
  { change 63%N with (N.ones 6). rewrite N.land_ones.
    pose proof (N.mod_upper_bound x (2 ^ 6) ltac:(discriminate)) as Hb.
    change (length encodeURL) with 64. change (2 ^ 6)%N with 64%N in *. lia. }
  pose proof encodeURL_safe as Hall.
  rewrite Forall_forall in Hall. apply Hall.
  apply list_elem_of_In. apply nth_In. exact Hlt.
Qed.

Lemma base64_Encode_safe src :
  Forall (fun c => shouldEscape c = false) (base64_Encode src).
Proof.
  induction src as [|a|a b|a b c l IH] using list_ind3; cbn [base64_Encode]; cbv zeta;
    repeat (apply Forall_cons; split; [apply encodeByte_safe|]);
    try (apply Forall_nil; exact I); try exact IH.
Qed.

Lemma QueryEscape_urlSafe s : urlSafe s -> QueryEscape s = s.
Proof.
  unfold urlSafe. induction s as [|c s IH]; simpl; [reflexivity|].
  intros H. apply Forall_cons in H as [Hc Hs]. rewrite Hc, (IH Hs). reflexivity.
Qed.

Lemma list_ascii_of_string_of_list l :
  String.list_ascii_of_string (String.string_of_list_ascii l) = l.
Proof. induction l as [|c l IH]; simpl; [reflexivity|]. rewrite IH. reflexivity. Qed.

Lemma base64URLEncode_length data :
  String.length (base64URLEncode data) = (4 * length data + 2) / 3.
Proof.
  unfold base64URLEncode. rewrite length_string_of_list_ascii. apply base64_Encode_length.
Qed.

Lemma base64URLEncode_length_32 data :
  length data = 32 -> String.length (base64URLEncode data) = 43.
Proof. intros H. rewrite base64URLEncode_length, H. reflexivity. Qed.

Lemma base64URLEncode_urlSafe data : urlSafe (base64URLEncode data).
Proof.
  unfold urlSafe, base64URLEncode. rewrite list_ascii_of_string_of_list.
  apply base64_Encode_safe.
Qed.

Lemma buildAuthURL_escaped challenge state :
  buildAuthURL challenge state =
    "https://claude.ai/oauth/authorize?client_id=9d1c250a-e61b-44d9-88ed-5944d1962f5e&code=true&code_challenge="
    ++ QueryEscape challenge
    ++ "&code_challenge_method=S256&redirect_uri=https%3A%2F%2Fconsole.anthropic.com%2Foauth%2Fcode%2Fcallback&response_type=code&scope=org%3Acreate_api_key+user%3Aprofile+user%3Ainference&state="
    ++ QueryEscape state.
Proof. unfold buildAuthURL, Values_Encode. vm_compute. reflexivity. Qed.

(** X15.  [base64URLEncode] gives (4n + 2) / 3 characters for n bytes,
    without padding, so 43 characters for 32 bytes; every character is a
    letter, a digit, [-] or [_], so that [QueryEscape] leaves the result
    as it is. *)
Theorem base64URLEncode_length_and_alphabet data :
  String.length (base64URLEncode data) = (4 * length data + 2) / 3 /\
  (length data = 32 -> String.length (base64URLEncode data) = 43) /\
  urlSafe (base64URLEncode data) /\
  QueryEscape (base64URLEncode data) = base64URLEncode data.
Proof.
  split; [apply base64URLEncode_length|]. split; [apply base64URLEncode_length_32|].
  split; [apply base64URLEncode_urlSafe|].
  apply QueryEscape_urlSafe, base64URLEncode_urlSafe.
Qed.

(** X16.  [buildAuthURL] writes the eight parameters after the
    authorize URL in the sorted order of their keys, each value escaped
    for a query: the challenge and the state stand where the keys
    [code_challenge] and [state] put them, and stand there verbatim when
    they consist of letters, digits, [-], [_], [.] and [~]. *)
Theorem buildAuthURL_layout challenge state :
  buildAuthURL challenge state =
    "https://claude.ai/oauth/authorize?client_id=9d1c250a-e61b-44d9-88ed-5944d1962f5e&code=true&code_challenge="
    ++ QueryEscape challenge
    ++ "&code_challenge_method=S256&redirect_uri=https%3A%2F%2Fconsole.anthropic.com%2Foauth%2Fcode%2Fcallback&response_type=code&scope=org%3Acreate_api_key+user%3Aprofile+user%3Ainference&state="
    ++ QueryEscape state /\
  (urlSafe challenge -> urlSafe state ->
   buildAuthURL challenge state =
     "https://claude.ai/oauth/authorize?client_id=9d1c250a-e61b-44d9-88ed-5944d1962f5e&code=true&code_challenge="
     ++ challenge
     ++ "&code_challenge_method=S256&redirect_uri=https%3A%2F%2Fconsole.anthropic.com%2Foauth%2Fcode%2Fcallback&response_type=code&scope=org%3Acreate_api_key+user%3Aprofile+user%3Ainference&state="
     ++ state).
Proof.
  split; [apply buildAuthURL_escaped|].
  intros Hc Hs.
  rewrite buildAuthURL_escaped, (QueryEscape_urlSafe _ Hc), (QueryEscape_urlSafe _ Hs).
  reflexivity.
Qed.

(** X17.  [InitiateAuth] fails exactly when one of its two random reads
    fails, with the message of the failed step, and a failed first read
    hides the second.  When both reads fill their 32 bytes (and
    [sha256.Sum256] gives its 32 bytes), the verifier, the state and the
    challenge have 43 characters each, the challenge is the encoded hash
    of the verifier, and the URL carries the challenge and the state
    verbatim. *)
Theorem InitiateAuth_parameters Sum256 read1 read2 :
  (forall data, length (Sum256 data) = 32) ->
  match InitiateAuth Sum256 read1 read2 with
  | inr msg =>
      (exists err, read1 = inr err /\ msg = "generate code verifier: " ++ err) \/
      (exists b err, read1 = inl b /\ read2 = inr err /\ msg = "generate state: " ++ err)
  | inl params =>
      exists b1 b2,
        read1 = inl b1 /\ read2 = inl b2 /\
        CodeVerifier params = base64URLEncode b1 /\
        State params = base64URLEncode b2 /\
        CodeChallenge params =
          base64URLEncode (Sum256 (String.list_byte_of_string (CodeVerifier params))) /\
        String.length (CodeChallenge params) = 43 /\
        (length b1 = 32 -> String.length (CodeVerifier params) = 43) /\
        (length b2 = 32 -> String.length (State params) = 43) /\
        AuthURL params =
          "https://claude.ai/oauth/authorize?client_id=9d1c250a-e61b-44d9-88ed-5944d1962f5e&code=true&code_challenge="
          ++ CodeChallenge params
          ++ "&code_challenge_method=S256&redirect_uri=https%3A%2F%2Fconsole.anthropic.com%2Foauth%2Fcode%2Fcallback&response_type=code&scope=org%3Acreate_api_key+user%3Aprofile+user%3Ainference&state="
          ++ State params
  end.
Proof.
  intros Hsum. unfold InitiateAuth.
  destruct read1 as [b1|e1]; simpl; [|left; eauto].
  destruct read2 as [b2|e2]; simpl; [|right; eauto].
  exists b1, b2. repeat split.
  - apply base64URLEncode_length_32. apply Hsum.
  - apply base64URLEncode_length_32.
  - apply base64URLEncode_length_32.
  - rewrite buildAuthURL_escaped, !QueryEscape_urlSafe by apply base64URLEncode_urlSafe.
    reflexivity.
Qed.

(** * Properties of the login *)

Lemma append_String c (s r : string) : String c s ++ r = String c (s ++ r).
Proof. reflexivity. Qed.


Lemma strings_Split_nonempty s sep : strings_Split s sep <> [].
Proof.
  destruct s as [|c s]; simpl; [discriminate|].
  destruct (Ascii.eqb c sep); [discriminate|].
  destruct (strings_Split s sep); discriminate.
Qed.


(** [strings.SplitN] with [n = 2] cuts at the first separator. *)
Lemma strings_SplitN2_Contains s :
  strings_Contains s hash = true ->
  exists code rest,
    strings_SplitN2 s hash = [code; rest] /\
    strings_Contains code hash = false /\
    s = code ++ "#" ++ rest.
Proof.
  induction s as [|c s IH]; simpl; [discriminate|].
  destruct (Ascii.eqb c hash) eqn:E.
  - intros _. apply Ascii.eqb_eq in E. subst c. exists "", s. auto.
  - intros Hc. destruct (IH Hc) as (code & rest & Hs & Hcode & Heq).
    rewrite Hs. exists (String c code), rest.
    split; [reflexivity|]. split; [simpl; rewrite E; exact Hcode|].
    rewrite append_String. f_equal. exact Heq.
Qed.

Lemma strings_Contains_app code rest :
  strings_Contains (code ++ "#" ++ rest) hash = true.
Proof.
  induction code as [|c code IH]; simpl; [reflexivity|].
  destruct (Ascii.eqb c hash); [reflexivity|exact IH].
Qed.

Lemma strings_SplitN2_app code rest :
  strings_Contains code hash = false ->
  strings_SplitN2 (code ++ "#" ++ rest) hash = [code; rest].
Proof.
  induction code as [|c code IH]; simpl; [reflexivity|].
  destruct (Ascii.eqb c hash); [discriminate|].
  intros H. rewrite (IH H). reflexivity.
Qed.



(** * Properties of the dialog *)

(** X20.  With the authorization parameters set, [submitCode] starts
    the exchange exactly when the trimmed input is [code#state] with a
    code free of [#] and the state of the parameters: everything after
    the first [#] is compared with the state.  It then enters the state
    [Exchanging]; otherwise it reports an error and changes nothing. *)
Theorem submitCode_accepts_code_and_state env m a code st :
  dialog.authParams m = Some a ->
  ((exists m', dialog.submitCode env m = Some (m', dialog.ActionCmdExchangeCode code st)) <->
   (st = State a /\ strings_Contains code hash = false /\
    dialog.dialogTrimSpace env (dialog.codeInput m) = code ++ "#" ++ st)) /\
  (forall m' action, dialog.submitCode env m = Some (m', action) ->
     (exists c s, action = dialog.ActionCmdExchangeCode c s /\
                  m' = dialog.setDialogState dialog.OAuthAnthropicStateExchanging m) \/
     (exists msg, action = dialog.ActionCmdReportError msg /\ m' = m)).
Proof.
  intros Ha. unfold dialog.submitCode. rewrite Ha.
  set (input := dialog.dialogTrimSpace env (dialog.codeInput m)).
  split.
  - split.
    + intros (m' & H).
      destruct (String.eqb input "") eqn:Hempty; [simplify_eq|].
      destruct (strings_Contains input hash) eqn:Hc; [|simplify_eq].
      destruct (strings_SplitN2_Contains _ Hc) as (code' & rest & Hs & Hcode & Heq).
      rewrite Hs in H. simpl in H.
      destruct (String.eqb rest (State a)) eqn:Hstate; simpl in H; simplify_eq.
      apply String.eqb_eq in Hstate. auto.
    + intros (-> & Hcode & Heq). rewrite Heq.
      destruct (String.eqb (code ++ "#" ++ State a) "") eqn:Hempty.
      { apply String.eqb_eq in Hempty. destruct code; discriminate. }
      rewrite strings_Contains_app, (strings_SplitN2_app _ _ Hcode). simpl.
      rewrite String.eqb_refl. simpl. eexists. reflexivity.
  - intros m' action H.
    destruct (String.eqb input "") eqn:Hempty; [simplify_eq; right; eauto|].
    destruct (negb (strings_Contains input hash)); [simplify_eq; right; eauto|].
    destruct (negb (String.eqb _ (State a))); simplify_eq; [right; eauto|left; eauto].
Qed.





(** * The properties of the tool names, of the OAuth flow and of the
      login on the examples *)

(** With [strings.ToLower] on ASCII, the entries in reverse order. *)
Lemma reverseToolNames_any_iteration_order_witness :
  lowersToolNames asciiToLower /\
  reverseFrom asciiToLower (reverse (map_to_list claudeCodeToolNames)) =
    reverseToolNames asciiToLower.
Proof.
  split; [apply asciiToLower_lowers|].
  apply (proj1 (reverseToolNames_any_iteration_order asciiToLower
                  (reverse (map_to_list claudeCodeToolNames)) asciiToLower_lowers
                  (reverse_Permutation _))).
Defined.

(** [bash] comes back from [Bash]. *)
Lemma tool_name_round_trip_witness :
  is_Some (claudeCodeToolNames !! "bash") /\
  FromClaudeCodeName asciiToLower (ToClaudeCodeName asciiToLower "bash") = "bash".
Proof.
  assert (H : is_Some (claudeCodeToolNames !! "bash")) by (eexists; vm_compute; reflexivity).
  split; [exact H|].
  apply (proj2 (tool_name_round_trip asciiToLower "bash" asciiToLower_lowers) H).
Defined.

(** [BASH] is converted to a name that is not in the table. *)
Lemma converted_name_is_not_blocked_witness :
  ToClaudeCodeName asciiToLower "BASH" = "Bash" /\
  claudeCodeToolNames !! ToClaudeCodeName asciiToLower "BASH" = None.
Proof.
  split; [vm_compute; reflexivity|].
  apply (proj1 (converted_name_is_not_blocked asciiToLower "BASH" asciiToLower_lowers)).
Defined.

(** The three tools of the test: [bash], [read] and [custom]. *)
Lemma WrapToolsForOAuth_renames_witness :
  (Name ∘ Info) <$> WrapToolsForOAuth asciiToLower exampleTools = ["Bash"; "Read"; "custom"] /\
  length (WrapToolsForOAuth asciiToLower exampleTools) = length exampleTools.
Proof.
  split; [vm_compute; reflexivity|].
  apply (proj1 (WrapToolsForOAuth_renames asciiToLower exampleTools asciiToLower_lowers)).
Defined.

(** 32 bytes give 43 characters. *)
Lemma base64URLEncode_length_and_alphabet_witness :
  length exampleBytes = 32 /\ String.length (base64URLEncode exampleBytes) = 43.
Proof.
  split; [reflexivity|].
  apply (proj1 (proj2 (base64URLEncode_length_and_alphabet exampleBytes))). reflexivity.
Defined.

(** The challenge and the state of the test. *)
Lemma buildAuthURL_layout_witness :
  urlSafe "test_challenge" /\ urlSafe "test_state" /\
  buildAuthURL "test_challenge" "test_state" =
    "https://claude.ai/oauth/authorize?client_id=9d1c250a-e61b-44d9-88ed-5944d1962f5e&code=true&code_challenge="
    ++ "test_challenge"
    ++ "&code_challenge_method=S256&redirect_uri=https%3A%2F%2Fconsole.anthropic.com%2Foauth%2Fcode%2Fcallback&response_type=code&scope=org%3Acreate_api_key+user%3Aprofile+user%3Ainference&state="
    ++ "test_state".
Proof.
  assert (H1 : urlSafe "test_challenge") by (apply (bool_decide_unpack _); vm_compute; exact I).
  assert (H2 : urlSafe "test_state") by (apply (bool_decide_unpack _); vm_compute; exact I).
  split; [exact H1|]. split; [exact H2|].
  apply (proj2 (buildAuthURL_layout "test_challenge" "test_state") H1 H2).
Defined.

(** Both reads succeed. *)
Lemma InitiateAuth_parameters_witness :
  (forall data, length (exampleSum256 data) = 32) /\
  exists params,
    InitiateAuth exampleSum256 (inl exampleBytes) (inl exampleBytes) = inl params /\
    String.length (CodeChallenge params) = 43.
Proof.
  assert (Hsum : forall data, length (exampleSum256 data) = 32)
    by (intros data; apply length_replicate).
  split; [exact Hsum|].
  pose proof (InitiateAuth_parameters exampleSum256 (inl exampleBytes) (inl exampleBytes) Hsum)
    as H.
  destruct (InitiateAuth exampleSum256 (inl exampleBytes) (inl exampleBytes)) as [params|msg].
  - exists params. split; [reflexivity|].
    destruct H as (b1 & b2 & _ & _ & _ & _ & _ & Hlen & _). exact Hlen.
  - destruct H as [(err & Hr & _)|(b & err & _ & Hr & _)]; discriminate.
Defined.



(** [abc#xyz] is accepted. *)
Lemma submitCode_accepts_code_and_state_witness :
  exists m', dialog.submitCode exampleDialogEnv exampleWaiting =
             Some (m', dialog.ActionCmdExchangeCode "abc" "xyz").
Proof.
  apply (proj1 (submitCode_accepts_code_and_state exampleDialogEnv exampleWaiting
                  exampleAuthParams "abc" "xyz" eq_refl)).
  split; [reflexivity|]. split; reflexivity.
Defined.

